(** * TidalCycles MCP server: session state, sinks and request dispatcher

    A shallow embedding of [TidalMCPServer] (the class of the server's
    entry point): the channel table, the pattern history, the two output
    sinks (the watched file and the GHCi subprocess) and the tool-call
    handler, followed by the properties of the design document that can be
    settled on it.

    Conventions of the embedding:
    - a JavaScript [Map] keeps its keys in insertion order, so [channels] is
      an association list with [JSMap.set] / [JSMap.get] written after
      the semantics of [Map.prototype.set] / [get];
    - numbers that the code uses as integers (timestamps, the history limit)
      are [Z]; tool arguments have the TypeScript types the handler casts
      them to ([string], [number | undefined]); what the history selects for
      a limit that is not a whole number is given apart, over [JSNumber];
    - everything the code obtains from its host (the clock, the result of a
      file or pipe write, the events of the child process) is read from an
      [Env] record, one per operation;
    - the file system is a finite map from paths to contents, and every
      effect on the outside world is also appended to a trace, oldest first;
    - an [async] method that throws leaves the state as it was at the throw:
      methods return an [Outcome] together with the state;
    - an exception thrown by a listener reaches no method: it ends the host
      process, which [startup] accounts for;
    - [console.error] diagnostics are not modelled. *)

From Stdlib Require Import ZArith QArith Qround String List Bool Lia.
From stdpp Require Import base option list strings gmap pretty.

Open Scope string_scope.

(** ** Strings *)

Definition nl : string := String (Ascii.ascii_of_nat 10) EmptyString.

(** [Array.prototype.join] on strings. *)
Fixpoint join (sep : string) (l : list string) : string :=
  match l with
  | [] => ""
  | [x] => x
  | x :: rest => x +:+ sep +:+ join sep rest
  end.

(** [a || b] on an optional string: [undefined] and the empty string are
    falsy. *)
Definition or_default (o : option string) (d : string) : string :=
  match o with
  | Some s => if String.eqb s "" then d else s
  | None => d
  end.

(** ** Data model *)

Record ChannelState := mkChannelState {
  channel : string;
  pattern : string;
  timestamp : Z;
  active : bool
}.

Record HistoryEntry := mkHistoryEntry {
  h_channel : string;
  h_pattern : string;
  h_timestamp : Z
}.

Record TidalConfig := mkTidalConfig {
  tidalFile : string;
  bootTidalPath : option string;
  useGhci : bool;
  cfg_logFile : option string
}.

(** The part of a Node [ChildProcess] that the server inspects. *)
Record ChildProcess := mkChildProcess {
  pid : nat;
  has_stdin : bool;
  stdin_destroyed : bool;
  killed : bool
}.

(** ** Insertion-ordered maps *)

Module JSMap.

Definition t (V : Type) := list (string * V).

(** [m.set(k, v)]: an existing key keeps its position, a new key goes
    last. *)
Fixpoint set {V} (k : string) (v : V) (m : t V) : t V :=
  match m with
  | [] => [(k, v)]
  | (k', v') :: rest =>
      if String.eqb k k' then (k, v) :: rest else (k', v') :: set k v rest
  end.

Fixpoint get {V} (k : string) (m : t V) : option V :=
  match m with
  | [] => None
  | (k', v') :: rest => if String.eqb k k' then Some v' else get k rest
  end.

(** Mutating the object stored under [k] in place when there is one. *)
Fixpoint update {V} (k : string) (f : V -> V) (m : t V) : t V :=
  match m with
  | [] => []
  | (k', v') :: rest =>
      if String.eqb k k' then (k', f v') :: rest else (k', v') :: update k f rest
  end.

Definition keys {V} (m : t V) : list string := map fst m.
Definition values {V} (m : t V) : list V := map snd m.

(** Number of entries stored under [k]. *)
Definition count {V} (k : string) (m : t V) : nat :=
  length (List.filter (String.eqb k) (keys m)).

End JSMap.

(** ** The outside world *)

Inductive Effect :=
| FsAppend (path content : string)
| FsWrite (path content : string)
| Spawn (new_pid : nat) (command : string) (args : list string)
| Kill (p : nat)
| StdinWrite (p : nat) (data : string).

(** Callbacks and runtime changes that reach the server between two of its
    own steps. *)
Inductive AsyncEvent :=
| ProcError        (* 'error' on the child process *)
| ProcExit         (* 'exit' on the child process *)
| StdinError       (* 'error' on its stdin *)
| StdinClose       (* 'close' on its stdin *)
| StdinDestroyed.  (* the runtime marks stdin as destroyed *)

Record Env := mkEnv {
  Date_now : nat -> Z;               (* n-th [Date.now()] of the operation *)
  toISOString : nat -> string;       (* n-th [new Date().toISOString()] *)
  appendFile_error : option string;  (* [fs.appendFile] rejects with this *)
  writeFile_error : option string;   (* [fs.writeFile] rejects with this *)
  GHCI_PATH : option string;         (* [process.env.GHCI_PATH] *)
  spawn_throws : option string;      (* [spawn] throws synchronously *)
  spawn_has_stdin : bool;            (* the new child has a stdin pipe *)
  init_events : list AsyncEvent;     (* what fires while startup is awaited *)
  stdin_write_error : option string  (* the write callback gets this error *)
}.

(** ** Server state *)

Record State := mkState {
  channels : JSMap.t ChannelState;
  patternHistory : list HistoryEntry;
  ghciProcess : option ChildProcess;
  ghciStreamAlive : bool;
  isReconnecting : bool;
  logFile : string;
  files : gmap string string;
  effects : list Effect;
  spawned : nat
}.

Definition set_channels (v : JSMap.t ChannelState) (s : State) : State :=
  mkState v (patternHistory s) (ghciProcess s) (ghciStreamAlive s)
    (isReconnecting s) (logFile s) (files s) (effects s) (spawned s).

Definition set_patternHistory (v : list HistoryEntry) (s : State) : State :=
  mkState (channels s) v (ghciProcess s) (ghciStreamAlive s)
    (isReconnecting s) (logFile s) (files s) (effects s) (spawned s).

Definition set_ghciProcess (v : option ChildProcess) (s : State) : State :=
  mkState (channels s) (patternHistory s) v (ghciStreamAlive s)
    (isReconnecting s) (logFile s) (files s) (effects s) (spawned s).

Definition set_ghciStreamAlive (v : bool) (s : State) : State :=
  mkState (channels s) (patternHistory s) (ghciProcess s) v
    (isReconnecting s) (logFile s) (files s) (effects s) (spawned s).

Definition set_isReconnecting (v : bool) (s : State) : State :=
  mkState (channels s) (patternHistory s) (ghciProcess s) (ghciStreamAlive s)
    v (logFile s) (files s) (effects s) (spawned s).

Definition set_files (v : gmap string string) (s : State) : State :=
  mkState (channels s) (patternHistory s) (ghciProcess s) (ghciStreamAlive s)
    (isReconnecting s) (logFile s) v (effects s) (spawned s).

Definition emit (e : Effect) (s : State) : State :=
  mkState (channels s) (patternHistory s) (ghciProcess s) (ghciStreamAlive s)
    (isReconnecting s) (logFile s) (files s) (effects s ++ [e]) (spawned s).

Definition set_spawned (v : nat) (s : State) : State :=
  mkState (channels s) (patternHistory s) (ghciProcess s) (ghciStreamAlive s)
    (isReconnecting s) (logFile s) (files s) (effects s) v.

(** ** Outcomes of async methods *)

Inductive Outcome (A : Type) :=
| Ok (a : A)
| Thrown (message : string).
Arguments Ok {A} a.
Arguments Thrown {A} message.

Definition M (A : Type) := State -> Outcome A * State.

Definition ret {A} (a : A) : M A := fun s => (Ok a, s).

Definition bind {A B} (m : M A) (k : A -> M B) : M B :=
  fun s =>
    match m s with
    | (Ok a, s') => k a s'
    | (Thrown e, s') => (Thrown e, s')
    end.

Notation "x <- m ;; k" := (bind m (fun x => k))
  (at level 100, m at next level, right associativity).
Notation "m ;;; k" := (bind m (fun _ => k))
  (at level 100, right associativity).

(** A step that cannot throw. *)
Definition lift (f : State -> State) : M unit := fun s => (Ok tt, f s).

(** ** File system *)

(** [fs.appendFile(path, text)]: creates the file when it is missing. *)
Definition fs_appendFile (env : Env) (path text : string) : M unit :=
  fun s =>
    match appendFile_error env with
    | Some e => (Thrown e, s)
    | None =>
        let old := default "" (files s !! path) in
        (Ok tt, emit (FsAppend path text)
                  (set_files (<[path := old +:+ text]> (files s)) s))
    end.

(** [fs.writeFile(path, text)]: the file holds [text] afterwards. *)
Definition fs_writeFile (env : Env) (path text : string) : M unit :=
  fun s =>
    match writeFile_error env with
    | Some e => (Thrown e, s)
    | None =>
        (Ok tt, emit (FsWrite path text)
                  (set_files (<[path := text]> (files s)) s))
    end.

(** [try { await m } catch { console.error(...) }] *)
Definition swallow (m : M unit) : M unit :=
  fun s => (Ok tt, snd (m s)).

(** ** Session log *)

Definition logPatternEvaluation (env : Env) (request channel pattern : string)
  : M unit :=
  let timestamp := toISOString env 0 in
  let fullPattern := channel +:+ " $ " +:+ pattern in
  let logEntry :=
    timestamp +:+ nl +:+
    "REQUEST: " +:+ request +:+ nl +:+
    "RESPONSE: " +:+ fullPattern +:+ nl +:+
    "---" +:+ nl +:+ nl in
  fun s => swallow (fs_appendFile env (logFile s) logEntry) s.

Definition logAction (env : Env) (action : string) (details : option string)
  : M unit :=
  let timestamp := toISOString env 0 in
  let shown :=
    match details with
    | Some d => if String.eqb d "" then "" else nl +:+ "DETAILS: " +:+ d
    | None => ""
    end in
  let logEntry :=
    timestamp +:+ nl +:+
    "ACTION: " +:+ action +:+ shown +:+ nl +:+
    "---" +:+ nl +:+ nl in
  fun s => swallow (fs_appendFile env (logFile s) logEntry) s.

(** ** File sink *)

(** The text [writeToTidalFile] builds; [iso] is the timestamp it reads. *)
Definition tidal_file_content (iso code : string) : string :=
  "-- TidalCycles MCP Server" +:+ nl +:+
  "-- Auto-generated at " +:+ iso +:+ nl +:+ nl +:+
  code +:+ nl.

(** Every operation that reaches the sink has logged first, so this is the
    second timestamp the operation reads. *)
Definition writeToTidalFile (cfg : TidalConfig) (env : Env) (code : string)
  : M unit :=
  fs_writeFile env (tidalFile cfg) (tidal_file_content (toISOString env 1) code).

(** ** GHCi sink *)

Definition isGhciHealthy (s : State) : bool :=
  ghciStreamAlive s &&
  match ghciProcess s with
  | Some p => has_stdin p && negb (stdin_destroyed p) && negb (killed p)
  | None => false
  end.

Definition mark_destroyed (p : ChildProcess) : ChildProcess :=
  mkChildProcess (pid p) (has_stdin p) true (killed p).

(** The listeners [startGhci] attaches close over the server, not over the
    process they were attached to. This is what a listener does to the
    server's fields. The 'error' listener then rethrows, see [rethrows]:
    no method of the server receives that exception, and a session that
    goes on after it describes more than the host process lives to do. *)
Definition on_event (ev : AsyncEvent) (s : State) : State :=
  match ev with
  | ProcError => set_ghciStreamAlive false s
  | ProcExit => set_ghciProcess None (set_ghciStreamAlive false s)
  | StdinError => set_ghciStreamAlive false s
  | StdinClose => set_ghciStreamAlive false s
  | StdinDestroyed =>
      set_ghciProcess (option_map mark_destroyed (ghciProcess s)) s
  end.

(** The 'error' listener ends in [throw err]. The exception leaves the
    listener into the event loop; the server installs no handler for
    uncaught exceptions, so it ends the host process. *)
Definition rethrows (ev : AsyncEvent) : bool :=
  match ev with
  | ProcError => true
  | _ => false
  end.

Inductive Started := AlreadyRunning | AwaitingInit.

(** [startGhci] up to its only suspension point, the wait for the readiness
    marker or the 10 s timer. *)
Definition startGhci_begin (cfg : TidalConfig) (env : Env) : M Started :=
  fun s =>
    if match ghciProcess s with Some _ => ghciStreamAlive s | None => false end
    then (Ok AlreadyRunning, s)
    else
      let s1 :=
        match ghciProcess s with
        | Some p => set_ghciProcess None (emit (Kill (pid p)) s)
        | None => s
        end in
      let boot := or_default (bootTidalPath cfg) "BootTidal.hs" in
      let ghciPath := or_default (GHCI_PATH env) "ghci" in
      match spawn_throws env with
      | Some e => (Thrown e, s1)
      | None =>
          let p := mkChildProcess (spawned s1) (spawn_has_stdin env) false false in
          (Ok AwaitingInit,
           set_ghciStreamAlive true
             (set_ghciProcess (Some p)
                (set_spawned (S (spawned s1))
                   (emit (Spawn (spawned s1) ghciPath ["-ghci-script"; boot]) s1))))
      end.

(** What happens to the server while [startGhci] is suspended: the marker
    and the timer only resolve the wait, the listeners may fire. *)
Definition await_init (env : Env) (s : State) : State :=
  fold_left (fun st ev => on_event ev st) (init_events env) s.

Definition startGhci (cfg : TidalConfig) (env : Env) : M unit :=
  st <- startGhci_begin cfg env ;;
  match st with
  | AlreadyRunning => ret tt
  | AwaitingInit => lift (await_init env)
  end.

Definition reconnecting_message : string :=
  "GHCi is currently reconnecting, please try again in a moment".

Inductive SendPhase := ReadyToWrite | AwaitingReconnect.

(** [sendToGhci] from its call to the point where it either throws, is
    about to write, or is suspended inside [startGhci]. *)
Definition sendToGhci_enter (cfg : TidalConfig) (env : Env) : M SendPhase :=
  fun s =>
    if isGhciHealthy s then (Ok ReadyToWrite, s)
    else if isReconnecting s then (Thrown reconnecting_message, s)
    else
      match startGhci_begin cfg env (set_isReconnecting true s) with
      | (Thrown e, s') =>
          (Thrown ("Failed to reconnect to GHCi: Error: " +:+ e),
           set_isReconnecting false s')
      | (Ok AlreadyRunning, s') => (Ok ReadyToWrite, set_isReconnecting false s')
      | (Ok AwaitingInit, s') => (Ok AwaitingReconnect, s')
      end.

(** The continuation after the wait inside [startGhci]. *)
Definition sendToGhci_resume (s : State) : State := set_isReconnecting false s.

(** The write of [code + "\n"] and its callback. A destroyed stream refuses
    the write. *)
Definition stdin_write (env : Env) (code : string) : M unit :=
  fun s =>
    match ghciProcess s with
    | Some p =>
        if has_stdin p then
          match (if stdin_destroyed p
                 then Some "Cannot call write after a stream was destroyed"
                 else stdin_write_error env) with
          | Some e => (Thrown e, set_ghciStreamAlive false s)
          | None => (Ok tt, emit (StdinWrite (pid p) (code +:+ nl)) s)
          end
        else (Thrown "GHCi stdin not available after reconnection", s)
    | None => (Thrown "GHCi stdin not available after reconnection", s)
    end.

(** One [sendToGhci] call run to completion with nothing else in between
    but the events of [env]. *)
Definition sendToGhci (cfg : TidalConfig) (env : Env) (code : string) : M unit :=
  ph <- sendToGhci_enter cfg env ;;
  match ph with
  | ReadyToWrite => ret tt
  | AwaitingReconnect => lift (fun s => sendToGhci_resume (await_init env s))
  end ;;;
  stdin_write env code.

(** "Use GHCi if configured, otherwise write to file". *)
Definition submit (cfg : TidalConfig) (env : Env) (code : string) : M unit :=
  if useGhci cfg then sendToGhci cfg env code else writeToTidalFile cfg env code.

(** ** Tools *)

Definition valid_channels : list string :=
  ["d1"; "d2"; "d3"; "d4"; "d5"; "d6"; "d7"; "d8"; "d9"].

Definition is_valid_channel (c : string) : bool :=
  existsb (String.eqb c) valid_channels.

(** The synchronous middle of [evalPattern]: "Update state" and "Add to
    history", with the two clock readings they make. *)
Definition evalPattern_update (env : Env) (channel pattern : string)
  (s : State) : State :=
  let s1 :=
    set_channels
      (JSMap.set channel (mkChannelState channel pattern (Date_now env 0) true)
         (channels s)) s in
  set_patternHistory
    (patternHistory s1 ++ [mkHistoryEntry channel pattern (Date_now env 1)]) s1.

Definition evalPattern (cfg : TidalConfig) (env : Env) (channel pattern : string)
  : M string :=
  let fullPattern := channel +:+ " $ " +:+ pattern in
  logPatternEvaluation env ("Evaluate pattern on " +:+ channel) channel pattern ;;;
  lift (evalPattern_update env channel pattern) ;;;
  submit cfg env fullPattern ;;;
  ret ("✓ Evaluated on " +:+ channel +:+ ":" +:+ nl +:+ fullPattern +:+ nl +:+ nl
       +:+ "Pattern is now playing.").

Definition clear_state (c : ChannelState) : ChannelState :=
  mkChannelState (channel c) "" (timestamp c) false.

Definition hush_update (s : State) : State :=
  set_channels (map (fun kv => (fst kv, clear_state (snd kv))) (channels s)) s.

Definition hush (cfg : TidalConfig) (env : Env) : M string :=
  logAction env "HUSH" (Some "Stopped all patterns") ;;;
  lift hush_update ;;;
  submit cfg env "hush" ;;;
  ret "✓ All patterns stopped (hushed).".

Definition silence_update (channel : string) (s : State) : State :=
  set_channels (JSMap.update channel clear_state (channels s)) s.

Definition silence (cfg : TidalConfig) (env : Env) (channel : string) : M string :=
  logAction env "SILENCE" (Some ("Silenced channel " +:+ channel)) ;;;
  lift (silence_update channel) ;;;
  submit cfg env ("silence " +:+ channel) ;;;
  ret ("✓ Silenced " +:+ channel +:+ ".").

(** [Math.floor((Date.now() - t) / 1000)] *)
Definition elapsed_seconds (now t : Z) : Z := ((now - t) / 1000)%Z.

(** The records [getState] lists: the values of the map, in its order,
    that are active. *)
Definition getActive (s : State) : list ChannelState :=
  List.filter active (JSMap.values (channels s)).

Definition getState (env : Env) : M string :=
  fun s =>
    let activeChannels :=
      imap (fun i c =>
              "  " +:+ channel c +:+ ": " +:+ pattern c +:+ " (" +:+
              pretty (elapsed_seconds (Date_now env i) (timestamp c)) +:+ "s ago)")
        (getActive s) in
    let stateText :=
      if (0 <? length activeChannels)%nat
      then "Active channels:" +:+ nl +:+ join nl activeChannels
      else "No active patterns." in
    (Ok stateText, s).

Definition solo (cfg : TidalConfig) (env : Env) (channel : string) : M string :=
  logAction env "SOLO" (Some ("Soloed channel " +:+ channel)) ;;;
  submit cfg env ("solo $ " +:+ channel) ;;;
  ret ("✓ Soloed " +:+ channel +:+ ". All other channels are muted.").

Definition unsolo (cfg : TidalConfig) (env : Env) : M string :=
  logAction env "UNSOLO" (Some "Restored all channels") ;;;
  submit cfg env "unsolo $ d1" ;;;
  ret "✓ Unsolo applied. All channels restored.".

(** [a.slice(start)] for an integral [start]: a negative one counts from
    the end, and both ends are clamped. *)
Definition Array_slice {A} (start : Z) (a : list A) : list A :=
  let len := Z.of_nat (length a) in
  let k := if (start <? 0)%Z then Z.max (len + start) 0 else Z.min start len in
  drop (Z.to_nat k) a.

(** [this.patternHistory.slice(-limit).reverse()] *)
Definition recent (limit : Z) (s : State) : list HistoryEntry :=
  reverse (Array_slice (- limit) (patternHistory s)).

(** [limit: number = 10] *)
Definition default_limit (limit : option Z) : Z := default 10%Z limit.

(** One line of the listing: its number, the entry, its age. *)
Definition history_line (limit : Z) (env : Env) (idx : nat) (entry : HistoryEntry)
  : string :=
  pretty (limit - Z.of_nat idx)%Z +:+ ". " +:+ h_channel entry +:+ ": " +:+
  h_pattern entry +:+ " (" +:+
  pretty (elapsed_seconds (Date_now env idx) (h_timestamp entry)) +:+ "s ago)".

Definition getHistory (env : Env) (limit : option Z) : M string :=
  fun s =>
    let limit := default_limit limit in
    let recent := recent limit s in
    if (length recent =? 0)%nat then (Ok "No pattern history yet.", s)
    else
      let historyText := join nl (imap (history_line limit env) recent) in
      (Ok ("Recent patterns:" +:+ nl +:+ historyText), s).

(** ** Request handler *)

(** The arguments of a call. [limit] is a whole number here; what the
    history selects for any other number is [recent_of]. *)
Record Args := mkArgs {
  arg_channel : string;
  arg_pattern : string;
  arg_limit : option Z
}.

Record Request := mkRequest {
  name : string;
  arguments : option Args
}.

Definition dispatch (cfg : TidalConfig) (env : Env) (req : Request) : M string :=
  match arguments req with
  | None => fun s => (Thrown "Missing arguments", s)
  | Some args =>
      let tool := name req in
      if String.eqb tool "tidal_eval"
      then evalPattern cfg env (arg_channel args) (arg_pattern args)
      else if String.eqb tool "tidal_hush" then hush cfg env
      else if String.eqb tool "tidal_silence" then silence cfg env (arg_channel args)
      else if String.eqb tool "tidal_get_state" then getState env
      else if String.eqb tool "tidal_solo" then solo cfg env (arg_channel args)
      else if String.eqb tool "tidal_unsolo" then unsolo cfg env
      else if String.eqb tool "tidal_get_history" then getHistory env (arg_limit args)
      else fun s => (Thrown ("Unknown tool: " +:+ tool), s)
  end.

(** The [CallToolRequestSchema] handler: the text of the response. *)
Definition handle (cfg : TidalConfig) (env : Env) (req : Request) (s : State)
  : string * State :=
  match dispatch cfg env req s with
  | (Ok text, s') => (text, s')
  | (Thrown errorMessage, s') => ("Error: " +:+ errorMessage, s')
  end.

(** ** Start-up *)

Definition initial_channels : JSMap.t ChannelState :=
  fold_left
    (fun m i =>
       let id := "d" +:+ pretty (Z.of_nat i) in
       JSMap.set id (mkChannelState id "" 0 false) m)
    (seq 1 9) [].

(** The constructor; [default_log] is
    [path.join(path.dirname(config.tidalFile), "tidal-mcp-session.log")]. *)
Definition constructor (cfg : TidalConfig) (default_log : string) : State :=
  mkState initial_channels [] None false false
    (or_default (cfg_logFile cfg) default_log) ∅ [] 0.

Definition log_header (cfg : TidalConfig) (iso log : string) : string :=
  "TidalCycles MCP Server - Session Log" +:+ nl +:+
  "Started: " +:+ iso +:+ nl +:+
  "Mode: " +:+ (if useGhci cfg then "Direct GHCi" else "File-based") +:+ nl +:+
  "Log File: " +:+ log +:+ nl +:+
  "================================================================================"
  +:+ nl +:+ nl.

(** [run()], up to the point where the transport is connected, as far as
    its own promise goes; [startup] below adds the listener that rethrows
    during the wait. *)
Definition run (cfg : TidalConfig) (env : Env) : M unit :=
  (if useGhci cfg then startGhci cfg env else ret tt) ;;;
  (fun s =>
     swallow (fs_writeFile env (logFile s)
                (log_header cfg (toISOString env 0) (logFile s))) s).

(** The listeners firing one after the other, up to the first that
    rethrows. *)
Inductive Delivered := Survived (s : State) | Uncaught (s : State).

Fixpoint deliver (evs : list AsyncEvent) (s : State) : Delivered :=
  match evs with
  | [] => Survived s
  | ev :: rest =>
      if rethrows ev then Uncaught (on_event ev s)
      else deliver rest (on_event ev s)
  end.

(** How [new TidalMCPServer(config)] followed by [server.run()] ends: the
    server serves requests from a state, the promise of [run] rejects, or
    the host process is ended by the exception of the 'error' listener
    while [startGhci] waits; the state is then the one the listener left. *)
Inductive Startup :=
| Serving (s : State)
| Rejected (e : string)
| Crashed (s : State).

Definition write_log_header (cfg : TidalConfig) (env : Env) : M unit :=
  fun s =>
    swallow (fs_writeFile env (logFile s)
               (log_header cfg (toISOString env 0) (logFile s))) s.

Definition startup (cfg : TidalConfig) (env : Env) (default_log : string)
  : Startup :=
  let s := constructor cfg default_log in
  let connect (x : Outcome unit * State) :=
    match x with
    | (Ok _, s') => Serving s'
    | (Thrown e, _) => Rejected e
    end in
  if useGhci cfg then
    match startGhci_begin cfg env s with
    | (Thrown e, _) => Rejected e
    | (Ok AlreadyRunning, s1) => connect (write_log_header cfg env s1)
    | (Ok AwaitingInit, s1) =>
        match deliver (init_events env) s1 with
        | Uncaught s2 => Crashed s2
        | Survived s2 => connect (write_log_header cfg env s2)
        end
    end
  else connect (write_log_header cfg env s).

(** ** Sessions *)

Inductive Input :=
| Call (env : Env) (req : Request)
| Event (ev : AsyncEvent).

Definition step (cfg : TidalConfig) (s : State) (i : Input) : State :=
  match i with
  | Call env req => snd (handle cfg env req s)
  | Event ev => on_event ev s
  end.

Definition exec (cfg : TidalConfig) (s : State) (inputs : list Input) : State :=
  fold_left (step cfg) inputs s.

(** The states in which the server starts to serve requests: [run] went
    through. *)
Definition booted (cfg : TidalConfig) (s0 : State) : Prop :=
  exists default_log env, run cfg env (constructor cfg default_log) = (Ok tt, s0).

(** States the server can be in when it is idle. *)
Definition reachable (cfg : TidalConfig) (s : State) : Prop :=
  exists s0 inputs, booted cfg s0 /\ s = exec cfg s0 inputs.

Definition eval_request (c p : string) : Request :=
  mkRequest "tidal_eval" (Some (mkArgs c p None)).

Definition tool_request (tool : string) (c : string) : Request :=
  mkRequest tool (Some (mkArgs c "" None)).

Definition history_request (limit : option Z) : Request :=
  mkRequest "tidal_get_history" (Some (mkArgs "" "" limit)).

(** ** Vocabulary of the properties *)

(** [frame R m]: every run of [m] relates the state before to the state
    after by [R], whether it returns or throws. *)
Definition frame {A} (R : State -> State -> Prop) (m : M A) : Prop :=
  forall s, R s (snd (m s)).

(** The in-memory store: channel table and history. *)
Definition same_store (s s' : State) : Prop :=
  channels s' = channels s /\ patternHistory s' = patternHistory s.

(** The text an effect puts on a file as its whole content or on the pipe.
    Within a tool call only the sink does either: the session log is
    appended to. *)
Definition sink_payload (e : Effect) : option string :=
  match e with
  | FsWrite _ content => Some content
  | StdinWrite _ data => Some data
  | _ => None
  end.

(** What the configured sink is given for the command [code]. *)
Definition sink_text (cfg : TidalConfig) (env : Env) (code : string) : string :=
  if useGhci cfg then code +:+ nl
  else tidal_file_content (toISOString env 1) code.

(** [writes l s s']: from [s] to [s'] the trace grew, and the sink writes
    among the new effects carried exactly the texts [l], in this order. *)
Definition writes (l : list string) (s s' : State) : Prop :=
  exists new, effects s' = (effects s ++ new)%list /\ omap sink_payload new = l.

(** What [submit] wrote when it returned, nothing when it threw. *)
Definition written {A} (r : Outcome A) (text : string) : list string :=
  match r with
  | Ok _ => [text]
  | Thrown _ => []
  end.

(** The evaluate calls among the inputs of a session. *)
Definition eval_call (i : Input) : option (Env * string * string) :=
  match i with
  | Call env req =>
      if String.eqb (name req) "tidal_eval" then
        match arguments req with
        | Some a => Some (env, arg_channel a, arg_pattern a)
        | None => None
        end
      else None
  | Event _ => None
  end.

Definition entry_of (e : Env * string * string) : HistoryEntry :=
  let '(env, c, p) := e in mkHistoryEntry c p (Date_now env 1).

(** The entries a session appends to the history, oldest first. *)
Definition appended (inputs : list Input) : list HistoryEntry :=
  map entry_of (omap eval_call inputs).

Definition eval_channel_valid (i : Input) : bool :=
  match eval_call i with
  | Some (_, c, _) => is_valid_channel c
  | None => true
  end.

Definition eval_pattern_nonempty (i : Input) : bool :=
  match eval_call i with
  | Some (_, _, p) => negb (String.eqb p "")
  | None => true
  end.

(** What one input does to the channel table, whatever the sink does. *)
Definition store_effect (i : Input) (m : JSMap.t ChannelState)
  : JSMap.t ChannelState :=
  match i with
  | Call env req =>
      match arguments req with
      | None => m
      | Some a =>
          if String.eqb (name req) "tidal_eval"
          then JSMap.set (arg_channel a)
                 (mkChannelState (arg_channel a) (arg_pattern a) (Date_now env 0) true) m
          else if String.eqb (name req) "tidal_hush"
          then map (fun kv => (fst kv, clear_state (snd kv))) m
          else if String.eqb (name req) "tidal_silence"
          then JSMap.update (arg_channel a) clear_state m
          else m
      end
  | Event _ => m
  end.

Definition is_active (id : string) (s : State) : bool :=
  match JSMap.get id (channels s) with
  | Some c => active c
  | None => false
  end.

(** The record listed for [id], when it has an active one. *)
Definition active_in (m : JSMap.t ChannelState) (id : string) : option ChannelState :=
  match JSMap.get id m with
  | Some c => if active c then Some c else None
  | None => None
  end.

Definition active_record (s : State) (id : string) : option ChannelState :=
  active_in (channels s) id.

(** What holds of the channel table in every session: keys are unique, the
    nine identifiers are among them, a record carries the key it is stored
    under, and an inactive record is empty. *)
Definition table_ok (m : JSMap.t ChannelState) : Prop :=
  List.NoDup (JSMap.keys m) /\
  (forall id, In id valid_channels -> In id (JSMap.keys m)) /\
  (forall k c, In (k, c) m -> channel c = k /\ (active c = false -> pattern c = "")).

(** An empty record is inactive. *)
Definition table_strict (m : JSMap.t ChannelState) : Prop :=
  forall k c, In (k, c) m -> pattern c = "" -> active c = false.

(** The identifiers outside d1..d9 that the evaluate calls of a session
    name, each once, in the order of their first call; [seen] holds those
    of the inputs before. *)
Definition note_channel (seen : list string) (i : Input) : list string :=
  match eval_call i with
  | Some (_, c, _) =>
      if is_valid_channel c || existsb (String.eqb c) seen then seen
      else (seen ++ [c])%list
  | None => seen
  end.

Definition other_channels (inputs : list Input) : list string :=
  fold_left note_channel inputs [].

(** What can happen to the server while one [sendToGhci] is suspended in
    its reconnect: another send arrives and runs, or a listener fires. *)
Inductive Activity :=
| Arrive (env : Env) (code : string)
| Fire (ev : AsyncEvent).

Definition during_wait (cfg : TidalConfig) (s : State) (a : Activity) : State :=
  match a with
  | Arrive env code => snd (sendToGhci cfg env code s)
  | Fire ev => on_event ev s
  end.

Definition overlap (cfg : TidalConfig) (s : State) (acts : list Activity) : State :=
  fold_left (during_wait cfg) acts s.

(** What a tool that ends with its sink call gives back: [text] when the
    sink returned, the sink's error when it threw, on the state the sink
    left. *)
Definition reply (text : string) (x : Outcome unit * State) : Outcome string * State :=
  match x with
  | (Ok _, s') => (Ok text, s')
  | (Thrown e, s') => (Thrown e, s')
  end.

(** The handler's response reports a failure. *)
Definition is_error (text : string) : bool := String.prefix "Error: " text.

(** ** The advertised tools *)

(** What the [ListToolsRequestSchema] handler answers, without the
    descriptions: per tool its name, its required arguments and, when it
    takes a channel, the values the schema enumerates for it. *)
Record Tool := mkTool {
  tool_name : string;
  tool_required : list string;
  tool_channel_enum : option (list string)
}.

Definition listTools : list Tool :=
  [ mkTool "tidal_eval" ["channel"; "pattern"]
      (Some ["d1"; "d2"; "d3"; "d4"; "d5"; "d6"; "d7"; "d8"; "d9"]);
    mkTool "tidal_hush" [] None;
    mkTool "tidal_silence" ["channel"]
      (Some ["d1"; "d2"; "d3"; "d4"; "d5"; "d6"; "d7"; "d8"; "d9"]);
    mkTool "tidal_get_state" [] None;
    mkTool "tidal_solo" ["channel"]
      (Some ["d1"; "d2"; "d3"; "d4"; "d5"; "d6"; "d7"; "d8"; "d9"]);
    mkTool "tidal_unsolo" [] None;
    mkTool "tidal_get_history" [] None ].

(** Whether a method threw. *)
Definition threw {A} (r : Outcome A) : bool :=
  match r with
  | Ok _ => false
  | Thrown _ => true
  end.

(** ** Vocabulary of the session properties *)

Definition is_file_effect (e : Effect) : bool :=
  match e with
  | FsAppend _ _ | FsWrite _ _ => true
  | _ => false
  end.

(** The server holds no interpreter, never had one, and its trace has
    nothing but file effects. *)
Definition no_interpreter (s : State) : Prop :=
  ghciProcess s = None /\ ghciStreamAlive s = false /\ spawned s = 0 /\
  forallb is_file_effect (effects s) = true.

(** From [s] to [s'] no file but the session log changed. *)
Definition only_log_changed (s s' : State) : Prop :=
  logFile s' = logFile s /\
  forall path, path <> logFile s -> files s' !! path = files s !! path.

(** The content of the session log, empty when the file is missing. *)
Definition log_text (s : State) : string := default "" (files s !! logFile s).

(** From [s] to [s'] the session log kept what it held and grew at its
    end. *)
Definition log_grew (s s' : State) : Prop :=
  logFile s' = logFile s /\ exists suffix, log_text s' = log_text s +:+ suffix.

(** The process spawned last in a trace, [last] being the one before it. *)
Fixpoint last_spawned (last : option nat) (trace : list Effect) : option nat :=
  match trace with
  | [] => last
  | Spawn n _ _ :: rest => last_spawned (Some n) rest
  | _ :: rest => last_spawned last rest
  end.

(** Every write to a stdin in the trace went to the process that was the
    last one spawned at that point. *)
Fixpoint addressed (last : option nat) (trace : list Effect) : bool :=
  match trace with
  | [] => true
  | Spawn n _ _ :: rest => addressed (Some n) rest
  | StdinWrite p _ :: rest =>
      match last with
      | Some n => Nat.eqb n p && addressed last rest
      | None => false
      end
  | _ :: rest => addressed last rest
  end.

(** The trace is well addressed and the process held, when there is one,
    is the last one spawned. *)
Definition holds_latest (s : State) : Prop :=
  addressed None (effects s) = true /\
  forall p, ghciProcess s = Some p -> last_spawned None (effects s) = Some (pid p).

(** The fields of the server object, without the files and the trace. *)
Definition memory (s : State) :=
  (channels s, patternHistory s, ghciProcess s, ghciStreamAlive s,
   isReconnecting s, logFile s, spawned s).

(** The same host, except for what [fs.appendFile] does. *)
Definition with_appendFile_error (o : option string) (env : Env) : Env :=
  mkEnv (Date_now env) (toISOString env) o (writeFile_error env) (GHCI_PATH env)
    (spawn_throws env) (spawn_has_stdin env) (init_events env)
    (stdin_write_error env).

(** Two states with the same server fields and the same files, the session
    log apart. *)
Definition same_but_log (s s' : State) : Prop :=
  memory s = memory s' /\
  forall path, path <> logFile s -> files s !! path = files s' !! path.

(** Two methods that, run on such states, end alike and in such states. *)
Definition agree {A} (m m' : M A) : Prop :=
  forall s s', same_but_log s s' ->
    fst (m s) = fst (m' s') /\ same_but_log (snd (m s)) (snd (m' s')).

(** ** The WebSocket client transport: delay before a reconnect *)

Definition maxReconnectDelay : Z := 30000.

(** [Math.min(1000 * Math.pow(2, this.reconnectAttempts),
    this.maxReconnectDelay)] of [scheduleReconnect], in milliseconds. The
    minimum is the same number whether the power is taken exactly or has
    grown past what a double holds. *)
Definition reconnect_delay (reconnectAttempts : nat) : Z :=
  Z.min (1000 * 2 ^ Z.of_nat reconnectAttempts) maxReconnectDelay.

(** ** The limit of a history query as a JavaScript number *)

(** [getHistory] above takes its limit as a whole number. The argument is a
    JavaScript number: what follows is [this.patternHistory.slice(-limit)
    .reverse()] for every number, a rational standing for a finite one. *)
Inductive JSNumber :=
| Finite (q : Q)
| PlusInfinity
| MinusInfinity
| NotANumber.

(** Unary minus. *)
Definition negate (x : JSNumber) : JSNumber :=
  match x with
  | Finite q => Finite (Qopp q)
  | PlusInfinity => MinusInfinity
  | MinusInfinity => PlusInfinity
  | NotANumber => NotANumber
  end.

(** Rounding towards zero. *)
Definition truncate (q : Q) : Z :=
  if Qle_bool 0 q then Qfloor q else Qceiling q.

Inductive IntegerOrInfinity :=
| Int (z : Z)
| PosInf
| NegInf.

(** The abstract operation ToIntegerOrInfinity of the language. *)
Definition ToIntegerOrInfinity (x : JSNumber) : IntegerOrInfinity :=
  match x with
  | NotANumber => Int 0
  | PlusInfinity => PosInf
  | MinusInfinity => NegInf
  | Finite q => Int (truncate q)
  end.

(** [a.slice(start)] for any number [start]. *)
Definition slice_from {A} (start : JSNumber) (a : list A) : list A :=
  let len := Z.of_nat (length a) in
  let k :=
    match ToIntegerOrInfinity start with
    | NegInf => 0%Z
    | Int r => if (r <? 0)%Z then Z.max (len + r) 0 else Z.min r len
    | PosInf => len
    end in
  drop (Z.to_nat k) a.

(** [this.patternHistory.slice(-limit).reverse()] for any number. *)
Definition recent_of (limit : JSNumber) (s : State) : list HistoryEntry :=
  reverse (slice_from (negate limit) (patternHistory s)).

(** ** Sample sessions *)

Module Sample.

Definition file_cfg : TidalConfig :=
  mkTidalConfig "/tmp/tidal-mcp-output.tidal" None false None.

Definition ghci_cfg : TidalConfig :=
  mkTidalConfig "/tmp/tidal-mcp-output.tidal" None true None.

Definition log_path : string := "/tmp/tidal-mcp-session.log".

(** A host on which nothing fails; the operation starts at [t] ms and
    every reading of the clock takes one more. *)
Definition env_at (t : Z) : Env :=
  mkEnv (fun n => t + Z.of_nat n)%Z
    (fun _ => "2025-01-01T00:00:00.000Z")
    None None None None true [] None.

Definition env_ok : Env := env_at 1000.

(** The same host refusing to write the output file. *)
Definition env_readonly : Env :=
  mkEnv (fun n => 1000 + Z.of_nat n)%Z
    (fun _ => "2025-01-01T00:00:00.000Z")
    None (Some "EACCES: permission denied") None None true [] None.

(** The same host with a pipe that rejects the write. *)
Definition env_broken_pipe : Env :=
  mkEnv (fun n => 1000 + Z.of_nat n)%Z
    (fun _ => "2025-01-01T00:00:00.000Z")
    None None None None true [] (Some "write EPIPE").

Definition file_boot : State := snd (run file_cfg env_ok (constructor file_cfg log_path)).
Definition ghci_boot : State := snd (run ghci_cfg env_ok (constructor ghci_cfg log_path)).

Definition args_none : Args := mkArgs "" "" None.

(** The interpreter has exited since start-up. *)
Definition ghci_dead : State := on_event ProcExit ghci_boot.

(** A first [sendToGhci] found it dead, spawned a new one and now waits
    inside [startGhci], holding the guard. *)
Definition ghci_reconnecting : State :=
  snd (sendToGhci_enter ghci_cfg env_ok ghci_dead).

(** A host on which the spawn of the interpreter throws. *)
Definition env_spawn_fails : Env :=
  mkEnv (fun n => 1000 + Z.of_nat n)%Z
    (fun _ => "2025-01-01T00:00:00.000Z")
    None None None (Some "spawn ENOMEM") true [] None.

(** A host without the interpreter: the spawn returns and the child
    reports ENOENT through its 'error' event. *)
Definition env_ghci_missing : Env :=
  mkEnv (fun n => 1000 + Z.of_nat n)%Z
    (fun _ => "2025-01-01T00:00:00.000Z")
    None None None None true [ProcError] None.

(** A host on which the interpreter exits during the wait and the session
    log cannot be created. *)
Definition env_ghci_exits : Env :=
  mkEnv (fun n => 1000 + Z.of_nat n)%Z
    (fun _ => "2025-01-01T00:00:00.000Z")
    None (Some "EACCES: permission denied") None None true [ProcExit] None.

End Sample.

(** * Properties *)

(** ** What a method leaves alone *)

Section Frames.
Context (R : State -> State -> Prop).
Hypothesis R_refl : forall s, R s s.
Hypothesis R_trans : forall s1 s2 s3, R s1 s2 -> R s2 s3 -> R s1 s3.

Lemma frame_ret {A} (a : A) : frame R (ret a).
Proof. intros s. apply R_refl. Qed.

Lemma frame_throw {A} (e : string) : frame R (fun s => (@Thrown A e, s)).
Proof. intros s. apply R_refl. Qed.

Lemma frame_bind {A B} (m : M A) (k : A -> M B) :
  frame R m -> (forall a, frame R (k a)) -> frame R (bind m k).
Proof.
  intros Hm Hk s. unfold bind. specialize (Hm s).
  destruct (m s) as [[a|e] s1]; simpl in *; [|exact Hm].
  eapply R_trans; [exact Hm | apply Hk].
Qed.

Lemma frame_lift (f : State -> State) :
  (forall s, R s (f s)) -> frame R (lift f).
Proof. intros Hf s. apply Hf. Qed.

Lemma frame_swallow (m : M unit) : frame R m -> frame R (swallow m).
Proof. intros Hm s. apply Hm. Qed.
End Frames.

Lemma same_store_refl s : same_store s s.
Proof. split; reflexivity. Qed.

Lemma same_store_trans s1 s2 s3 :
  same_store s1 s2 -> same_store s2 s3 -> same_store s1 s3.
Proof. intros [H1 H2] [H3 H4]. split; congruence. Qed.

Lemma store_bind {A B} (m : M A) (k : A -> M B) :
  frame same_store m -> (forall a, frame same_store (k a)) ->
  frame same_store (bind m k).
Proof. apply frame_bind, same_store_trans. Qed.

Lemma store_ret {A} (a : A) : frame same_store (ret a).
Proof. apply frame_ret, same_store_refl. Qed.

Lemma fs_appendFile_store env path text :
  frame same_store (fs_appendFile env path text).
Proof.
  intros s. unfold fs_appendFile.
  destruct (appendFile_error env); split; reflexivity.
Qed.

Lemma fs_writeFile_store env path text :
  frame same_store (fs_writeFile env path text).
Proof.
  intros s. unfold fs_writeFile.
  destruct (writeFile_error env); split; reflexivity.
Qed.

Lemma logAction_store env action details :
  frame same_store (logAction env action details).
Proof. intros s. exact (fs_appendFile_store env _ _ s). Qed.

Lemma logPatternEvaluation_store env request c p :
  frame same_store (logPatternEvaluation env request c p).
Proof. intros s. exact (fs_appendFile_store env _ _ s). Qed.

Lemma on_event_store ev s : same_store s (on_event ev s).
Proof. destruct ev; split; reflexivity. Qed.

Lemma await_init_store env s : same_store s (await_init env s).
Proof.
  unfold await_init. generalize (init_events env) as evs.
  intros evs. revert s.
  induction evs as [|ev evs IH]; intros s; simpl.
  - apply same_store_refl.
  - eapply same_store_trans; [apply (on_event_store ev) | apply IH].
Qed.

Lemma startGhci_begin_store cfg env : frame same_store (startGhci_begin cfg env).
Proof.
  intros s. unfold startGhci_begin.
  destruct (ghciProcess s) as [p|], (ghciStreamAlive s), (spawn_throws env);
    split; reflexivity.
Qed.

Lemma stdin_write_store env code : frame same_store (stdin_write env code).
Proof.
  intros s. unfold stdin_write.
  destruct (ghciProcess s) as [p|]; [|apply same_store_refl].
  destruct (has_stdin p); [|apply same_store_refl].
  destruct (stdin_destroyed p); [split; reflexivity|].
  destruct (stdin_write_error env); split; reflexivity.
Qed.

Lemma sendToGhci_enter_store cfg env : frame same_store (sendToGhci_enter cfg env).
Proof.
  intros s. unfold sendToGhci_enter.
  destruct (isGhciHealthy s); [apply same_store_refl|].
  destruct (isReconnecting s); [apply same_store_refl|].
  pose proof (startGhci_begin_store cfg env (set_isReconnecting true s)) as H.
  destruct (startGhci_begin cfg env (set_isReconnecting true s)) as [[[]|e] s'];
    simpl in *; destruct H as [H1 H2]; split; simpl; assumption.
Qed.

Lemma sendToGhci_store cfg env code : frame same_store (sendToGhci cfg env code).
Proof.
  unfold sendToGhci. apply store_bind.
  - apply sendToGhci_enter_store.
  - intros ph. apply store_bind.
    + destruct ph; [apply store_ret|].
      intros s. pose proof (await_init_store env s) as [H1 H2].
      split; simpl; assumption.
    + intros _. apply stdin_write_store.
Qed.

(** The sink never touches the store: whatever was written to the store
    before [submit] is still there after it, also when it throws. *)
Lemma submit_store cfg env code : frame same_store (submit cfg env code).
Proof.
  unfold submit, writeToTidalFile.
  destruct (useGhci cfg); [apply sendToGhci_store | apply fs_writeFile_store].
Qed.

(** ** The tools, step by step *)

(** [evalPattern] is: log, update the store, then run the sink on the
    updated state, and return what the sink returns. *)
Lemma evalPattern_unfold cfg env c p s :
  evalPattern cfg env c p s =
  let s1 := snd (logPatternEvaluation env ("Evaluate pattern on " +:+ c) c p s) in
  let s2 := evalPattern_update env c p s1 in
  match submit cfg env (c +:+ " $ " +:+ p) s2 with
  | (Ok _, s3) =>
      (Ok ("✓ Evaluated on " +:+ c +:+ ":" +:+ nl +:+ (c +:+ " $ " +:+ p) +:+ nl
           +:+ nl +:+ "Pattern is now playing."), s3)
  | (Thrown e, s3) => (Thrown e, s3)
  end.
Proof. reflexivity. Qed.

Lemma hush_unfold cfg env s :
  hush cfg env s =
  let s1 := snd (logAction env "HUSH" (Some "Stopped all patterns") s) in
  match submit cfg env "hush" (hush_update s1) with
  | (Ok _, s3) => (Ok "✓ All patterns stopped (hushed).", s3)
  | (Thrown e, s3) => (Thrown e, s3)
  end.
Proof. reflexivity. Qed.

Lemma silence_unfold cfg env c s :
  silence cfg env c s =
  let s1 := snd (logAction env "SILENCE" (Some ("Silenced channel " +:+ c)) s) in
  match submit cfg env ("silence " +:+ c) (silence_update c s1) with
  | (Ok _, s3) => (Ok ("✓ Silenced " +:+ c +:+ "."), s3)
  | (Thrown e, s3) => (Thrown e, s3)
  end.
Proof. reflexivity. Qed.

Lemma unsolo_unfold cfg env s :
  unsolo cfg env s =
  let s1 := snd (logAction env "UNSOLO" (Some "Restored all channels") s) in
  match submit cfg env "unsolo $ d1" s1 with
  | (Ok _, s3) => (Ok "✓ Unsolo applied. All channels restored.", s3)
  | (Thrown e, s3) => (Thrown e, s3)
  end.
Proof. reflexivity. Qed.

Lemma snd_after_submit {A} cfg env code s (f : State -> Outcome A * State)
  (g : string -> State -> Outcome A * State) :
  (forall s3, snd (f s3) = s3) -> (forall e s3, snd (g e s3) = s3) ->
  snd (match submit cfg env code s with
       | (Ok _, s3) => f s3
       | (Thrown e, s3) => g e s3
       end) = snd (submit cfg env code s).
Proof.
  intros Hf Hg. destruct (submit cfg env code s) as [[u|e] s3]; simpl; auto.
Qed.

Lemma evalPattern_store cfg env c p s :
  channels (snd (evalPattern cfg env c p s)) =
    JSMap.set c (mkChannelState c p (Date_now env 0) true) (channels s) /\
  patternHistory (snd (evalPattern cfg env c p s)) =
    (patternHistory s ++ [mkHistoryEntry c p (Date_now env 1)])%list.
Proof.
  rewrite evalPattern_unfold. cbv zeta.
  rewrite snd_after_submit by reflexivity.
  destruct (submit_store cfg env (c +:+ " $ " +:+ p)
              (evalPattern_update env c p
                 (snd (logPatternEvaluation env ("Evaluate pattern on " +:+ c) c p s))))
    as [Hc Hh].
  destruct (logPatternEvaluation_store env ("Evaluate pattern on " +:+ c) c p s)
    as [Lc Lh].
  rewrite Hc, Hh. unfold evalPattern_update, set_patternHistory, set_channels.
  cbn [channels patternHistory]. rewrite Lc, Lh. split; reflexivity.
Qed.

Lemma hush_store cfg env s :
  channels (snd (hush cfg env s)) =
    map (fun kv => (fst kv, clear_state (snd kv))) (channels s) /\
  patternHistory (snd (hush cfg env s)) = patternHistory s.
Proof.
  rewrite hush_unfold. cbv zeta. rewrite snd_after_submit by reflexivity.
  destruct (submit_store cfg env "hush"
              (hush_update (snd (logAction env "HUSH" (Some "Stopped all patterns") s))))
    as [Hc Hh].
  destruct (logAction_store env "HUSH" (Some "Stopped all patterns") s) as [Lc Lh].
  rewrite Hc, Hh. unfold hush_update, set_channels.
  cbn [channels patternHistory]. rewrite Lc, Lh. split; reflexivity.
Qed.

Lemma silence_store cfg env c s :
  channels (snd (silence cfg env c s)) =
    JSMap.update c clear_state (channels s) /\
  patternHistory (snd (silence cfg env c s)) = patternHistory s.
Proof.
  rewrite silence_unfold. cbv zeta. rewrite snd_after_submit by reflexivity.
  destruct (submit_store cfg env ("silence " +:+ c)
              (silence_update c
                 (snd (logAction env "SILENCE" (Some ("Silenced channel " +:+ c)) s))))
    as [Hc Hh].
  destruct (logAction_store env "SILENCE" (Some ("Silenced channel " +:+ c)) s)
    as [Lc Lh].
  rewrite Hc, Hh. unfold silence_update, set_channels.
  cbn [channels patternHistory]. rewrite Lc, Lh. split; reflexivity.
Qed.

Lemma solo_store cfg env c : frame same_store (solo cfg env c).
Proof.
  unfold solo. apply store_bind; [apply logAction_store|intros _].
  apply store_bind; [apply submit_store|intros _]. apply store_ret.
Qed.

Lemma unsolo_store cfg env : frame same_store (unsolo cfg env).
Proof.
  unfold unsolo. apply store_bind; [apply logAction_store|intros _].
  apply store_bind; [apply submit_store|intros _]. apply store_ret.
Qed.

Lemma getState_pure env s : snd (getState env s) = s.
Proof. reflexivity. Qed.

Lemma getHistory_pure env limit s : snd (getHistory env limit s) = s.
Proof. unfold getHistory. destruct (_ =? _)%nat; reflexivity. Qed.

Lemma snd_handle cfg env req s :
  snd (handle cfg env req s) = snd (dispatch cfg env req s).
Proof. unfold handle. destruct (dispatch cfg env req s) as [[t|e] s']; reflexivity. Qed.

(** The channel table after an input is a function of the table before and
    of the input alone. *)
Lemma step_channels cfg s i :
  channels (step cfg s i) = store_effect i (channels s).
Proof.
  destruct i as [env req|ev]; simpl; [|apply on_event_store].
  rewrite snd_handle. unfold dispatch.
  destruct (arguments req) as [a|]; [|reflexivity].
  destruct (String.eqb (name req) "tidal_eval"); [apply evalPattern_store|].
  destruct (String.eqb (name req) "tidal_hush"); [apply hush_store|].
  destruct (String.eqb (name req) "tidal_silence"); [apply silence_store|].
  destruct (String.eqb (name req) "tidal_get_state"); [reflexivity|].
  destruct (String.eqb (name req) "tidal_solo"); [apply solo_store|].
  destruct (String.eqb (name req) "tidal_unsolo"); [apply unsolo_store|].
  destruct (String.eqb (name req) "tidal_get_history");
    [rewrite getHistory_pure|]; reflexivity.
Qed.

(** The history after an input: what was there, then the entry of the
    input when it is an evaluate call. *)
Lemma step_history cfg s i :
  patternHistory (step cfg s i) = (patternHistory s ++ appended [i])%list.
Proof.
  unfold appended.
  destruct i as [env req|ev]; simpl;
    [|rewrite app_nil_r; apply on_event_store].
  rewrite snd_handle. unfold dispatch.
  destruct (arguments req) as [a|].
  2:{ destruct (String.eqb (name req) "tidal_eval"); simpl;
      rewrite app_nil_r; reflexivity. }
  destruct (String.eqb (name req) "tidal_eval"); [apply evalPattern_store|].
  simpl. rewrite app_nil_r.
  destruct (String.eqb (name req) "tidal_hush"); [apply hush_store|].
  destruct (String.eqb (name req) "tidal_silence"); [apply silence_store|].
  destruct (String.eqb (name req) "tidal_get_state"); [reflexivity|].
  destruct (String.eqb (name req) "tidal_solo"); [apply solo_store|].
  destruct (String.eqb (name req) "tidal_unsolo"); [apply unsolo_store|].
  destruct (String.eqb (name req) "tidal_get_history");
    [rewrite getHistory_pure|]; reflexivity.
Qed.

(** ** What reaches the sink *)

Lemma writes_refl s : writes [] s s.
Proof. exists []. split; [symmetry; apply app_nil_r | reflexivity]. Qed.

Lemma writes_trans l1 l2 s1 s2 s3 :
  writes l1 s1 s2 -> writes l2 s2 s3 -> writes (l1 ++ l2)%list s1 s3.
Proof.
  intros (n1 & E1 & P1) (n2 & E2 & P2). exists (n1 ++ n2)%list. split.
  - rewrite E2, E1. symmetry. apply app_assoc.
  - rewrite omap_app. congruence.
Qed.

Lemma silent_trans s1 s2 s3 : writes [] s1 s2 -> writes [] s2 s3 -> writes [] s1 s3.
Proof. apply (writes_trans [] []). Qed.

Lemma writes_emit_after e s s0 :
  effects s0 = effects s ->
  writes (match sink_payload e with Some t => [t] | None => [] end) s (emit e s0).
Proof.
  intros E. exists [e]. split; [simpl; congruence|].
  simpl. destruct (sink_payload e); reflexivity.
Qed.

Lemma writes_emit e s :
  writes (match sink_payload e with Some t => [t] | None => [] end) s (emit e s).
Proof. apply writes_emit_after. reflexivity. Qed.

Lemma writes_same_effects l s1 s2 s3 :
  effects s3 = effects s2 -> writes l s1 s2 -> writes l s1 s3.
Proof. intros E (n & E1 & P). exists n. split; congruence. Qed.

Lemma fs_appendFile_silent env path text : frame (writes []) (fs_appendFile env path text).
Proof.
  intros s. unfold fs_appendFile.
  destruct (appendFile_error env); simpl; [apply writes_refl|].
  apply (writes_emit_after (FsAppend path text)). reflexivity.
Qed.

Lemma logAction_silent env action details : frame (writes []) (logAction env action details).
Proof. intros s. exact (fs_appendFile_silent env _ _ s). Qed.


Lemma on_event_effects ev s : effects (on_event ev s) = effects s.
Proof. destruct ev; reflexivity. Qed.

Lemma await_init_effects env s : effects (await_init env s) = effects s.
Proof.
  unfold await_init. generalize (init_events env) as evs. intros evs. revert s.
  induction evs as [|ev evs IH]; intros s; simpl; [reflexivity|].
  rewrite IH. apply on_event_effects.
Qed.

Lemma startGhci_begin_silent cfg env : frame (writes []) (startGhci_begin cfg env).
Proof.
  intros s. unfold startGhci_begin.
  destruct (ghciProcess s) as [p|].
  - destruct (ghciStreamAlive s); [apply writes_refl|].
    destruct (spawn_throws env); simpl.
    + eapply writes_same_effects; [|apply (writes_emit (Kill (pid p)))]. reflexivity.
    + eapply writes_same_effects;
        [|apply (silent_trans _ (emit (Kill (pid p)) s));
          [apply (writes_emit (Kill (pid p)))
          |apply (writes_emit (Spawn (spawned s) (or_default (GHCI_PATH env) "ghci")
                     ["-ghci-script"; or_default (bootTidalPath cfg) "BootTidal.hs"]))]].
      reflexivity.
  - destruct (spawn_throws env); simpl; [apply writes_refl|].
    eapply writes_same_effects;
      [|apply (writes_emit (Spawn (spawned s) (or_default (GHCI_PATH env) "ghci")
                  ["-ghci-script"; or_default (bootTidalPath cfg) "BootTidal.hs"]))].
    reflexivity.
Qed.

Lemma sendToGhci_enter_silent cfg env : frame (writes []) (sendToGhci_enter cfg env).
Proof.
  intros s. unfold sendToGhci_enter.
  destruct (isGhciHealthy s); [apply writes_refl|].
  destruct (isReconnecting s); [apply writes_refl|].
  pose proof (startGhci_begin_silent cfg env (set_isReconnecting true s)) as H.
  destruct (startGhci_begin cfg env (set_isReconnecting true s)) as [[[]|e] s'];
    simpl in *; eapply writes_same_effects; try exact H; reflexivity.
Qed.

Lemma stdin_write_writes env code s :
  writes (written (fst (stdin_write env code s)) (code +:+ nl)) s
    (snd (stdin_write env code s)).
Proof.
  unfold stdin_write.
  destruct (ghciProcess s) as [p|]; [|apply writes_refl].
  destruct (has_stdin p); [|apply writes_refl].
  destruct (stdin_destroyed p).
  - eapply writes_same_effects; [|apply writes_refl]. reflexivity.
  - destruct (stdin_write_error env); simpl.
    + eapply writes_same_effects; [|apply writes_refl]. reflexivity.
    + apply (writes_emit (StdinWrite (pid p) (code +:+ nl))).
Qed.

Lemma sendToGhci_writes cfg env code s :
  writes (written (fst (sendToGhci cfg env code s)) (code +:+ nl)) s
    (snd (sendToGhci cfg env code s)).
Proof.
  unfold sendToGhci, bind.
  pose proof (sendToGhci_enter_silent cfg env s) as He.
  destruct (sendToGhci_enter cfg env s) as [[ph|e] s1]; simpl in He; [|exact He].
  destruct ph; simpl.
  - pose proof (stdin_write_writes env code s1) as Hw.
    destruct (stdin_write env code s1) as [r s2]; simpl in *.
    exact (writes_trans [] _ _ _ _ He Hw).
  - pose proof (stdin_write_writes env code (sendToGhci_resume (await_init env s1))) as Hw.
    destruct (stdin_write env code (sendToGhci_resume (await_init env s1))) as [r s2];
      simpl in *.
    refine (writes_trans [] _ _ _ _ _ Hw).
    eapply writes_same_effects; [|exact He].
    simpl. apply await_init_effects.
Qed.

Lemma writeToTidalFile_writes cfg env code s :
  writes (written (fst (writeToTidalFile cfg env code s))
            (tidal_file_content (toISOString env 1) code)) s
    (snd (writeToTidalFile cfg env code s)).
Proof.
  unfold writeToTidalFile, fs_writeFile.
  destruct (writeFile_error env); simpl; [apply writes_refl|].
  apply (writes_emit_after (FsWrite (tidalFile cfg) _)). reflexivity.
Qed.

(** The sink writes the text of the command once when it returns, and
    nothing when it throws. *)
Lemma submit_writes cfg env code s :
  writes (written (fst (submit cfg env code s)) (sink_text cfg env code)) s
    (snd (submit cfg env code s)).
Proof.
  unfold submit, sink_text. destruct (useGhci cfg).
  - apply sendToGhci_writes.
  - apply writeToTidalFile_writes.
Qed.

Lemma update_effects env c p s : effects (evalPattern_update env c p s) = effects s.
Proof. reflexivity. Qed.


Lemma unsolo_writes cfg env s :
  writes (written (fst (unsolo cfg env s)) (sink_text cfg env "unsolo $ d1")) s
    (snd (unsolo cfg env s)).
Proof.
  rewrite unsolo_unfold. cbv zeta.
  pose proof (logAction_silent env "UNSOLO" (Some "Restored all channels") s) as Hl.
  set (s1 := snd (logAction env "UNSOLO" (Some "Restored all channels") s)) in *.
  pose proof (submit_writes cfg env "unsolo $ d1" s1) as Hs.
  destruct (submit cfg env "unsolo $ d1" s1) as [[u|e] s3]; simpl in *;
    exact (writes_trans [] _ _ _ _ Hl Hs).
Qed.

Lemma file_boot_booted : booted Sample.file_cfg Sample.file_boot.
Proof. exists Sample.log_path, Sample.env_ok. reflexivity. Qed.

Lemma ghci_boot_booted : booted Sample.ghci_cfg Sample.ghci_boot.
Proof. exists Sample.log_path, Sample.env_ok. reflexivity. Qed.

(** * The claims *)

(** ** C1: evaluate on an identifier outside d1..d9 *)



(** ** C3: the sink fails after the store was updated *)

(** C3: [evalPattern] runs the sink on a state that already holds the new
    channel record and the new history entry; when the sink throws [e] the
    caller receives "Error: e", and the state left behind still holds
    both. *)
Theorem evaluate_sink_failure_keeps_update cfg env c p s e :
  let s2 :=
    evalPattern_update env c p
      (snd (logPatternEvaluation env ("Evaluate pattern on " +:+ c) c p s)) in
  let record := mkChannelState c p (Date_now env 0) true in
  let entry := mkHistoryEntry c p (Date_now env 1) in
  fst (submit cfg env (c +:+ " $ " +:+ p) s2) = Thrown e ->
  (channels s2 = JSMap.set c record (channels s) /\
   patternHistory s2 = (patternHistory s ++ [entry])%list) /\
  handle cfg env (eval_request c p) s =
    ("Error: " +:+ e, snd (submit cfg env (c +:+ " $ " +:+ p) s2)) /\
  channels (snd (handle cfg env (eval_request c p) s)) =
    JSMap.set c record (channels s) /\
  patternHistory (snd (handle cfg env (eval_request c p) s)) =
    (patternHistory s ++ [entry])%list.
Proof.
  cbv zeta. intros Hfail.
  destruct (logPatternEvaluation_store env ("Evaluate pattern on " +:+ c) c p s)
    as [Lc Lh].
  split.
  { unfold evalPattern_update, set_patternHistory, set_channels.
    cbn [channels patternHistory]. rewrite Lc, Lh. split; reflexivity. }
  assert (Hh : handle cfg env (eval_request c p) s =
               ("Error: " +:+ e,
                snd (submit cfg env (c +:+ " $ " +:+ p)
                       (evalPattern_update env c p
                          (snd (logPatternEvaluation env
                                  ("Evaluate pattern on " +:+ c) c p s)))))).
  { unfold handle.
    change (dispatch cfg env (eval_request c p) s) with (evalPattern cfg env c p s).
    rewrite evalPattern_unfold. cbv zeta.
    destruct (submit cfg env (c +:+ " $ " +:+ p) _) as [[u|e'] s3];
      simpl in Hfail; [discriminate|].
    injection Hfail as ->. reflexivity. }
  split; [exact Hh|].
  rewrite snd_handle.
  change (dispatch cfg env (eval_request c p) s) with (evalPattern cfg env c p s).
  apply evalPattern_store.
Qed.

Lemma evaluate_sink_failure_keeps_update_witness :
  let s := Sample.file_boot in
  let r := handle Sample.file_cfg Sample.env_readonly (eval_request "d1" "s bd") s in
  fst r = "Error: EACCES: permission denied" /\
  channels (snd r) =
    JSMap.set "d1" (mkChannelState "d1" "s bd" 1000 true) (channels s) /\
  patternHistory (snd r) = [mkHistoryEntry "d1" "s bd" 1001].
Proof.
  cbv zeta.
  destruct (evaluate_sink_failure_keeps_update Sample.file_cfg Sample.env_readonly
              "d1" "s bd" Sample.file_boot "EACCES: permission denied")
    as (_ & Hh & Hc & Hp); [reflexivity|].
  rewrite Hh. split; [reflexivity|].
  rewrite Hh in Hc, Hp. split; [exact Hc | exact Hp].
Defined.

(** ** C8: hush twice *)

Lemma clear_state_idem c : clear_state (clear_state c) = clear_state c.
Proof. reflexivity. Qed.

Lemma hush_channels_idem (m : JSMap.t ChannelState) :
  map (fun kv => (fst kv, clear_state (snd kv)))
    (map (fun kv => (fst kv, clear_state (snd kv))) m) =
  map (fun kv => (fst kv, clear_state (snd kv))) m.
Proof.
  induction m as [|[k c] m IH]; simpl; [reflexivity|].
  rewrite IH. reflexivity.
Qed.

Lemma hush_channels_cleared (m : JSMap.t ChannelState) :
  Forall (fun kv => pattern (snd kv) = "" /\ active (snd kv) = false)
    (map (fun kv => (fst kv, clear_state (snd kv))) m).
Proof.
  induction m as [|[k c] m IH]; simpl; constructor; auto.
Qed.

(** C8: from any state, with any arguments and whatever the sink does on
    either call, a second hush leaves the channel table exactly as the first
    one left it, and in that table every record has empty content and is
    inactive. *)
Theorem hush_twice_same_store cfg env1 env2 a1 a2 s :
  let s1 := snd (handle cfg env1 (mkRequest "tidal_hush" (Some a1)) s) in
  let s2 := snd (handle cfg env2 (mkRequest "tidal_hush" (Some a2)) s1) in
  channels s2 = channels s1 /\
  JSMap.keys (channels s1) = JSMap.keys (channels s) /\
  Forall (fun kv => pattern (snd kv) = "" /\ active (snd kv) = false) (channels s1).
Proof.
  cbv zeta.
  pose proof (step_channels cfg s (Call env1 (mkRequest "tidal_hush" (Some a1)))) as H1.
  pose proof (step_channels cfg
                (snd (handle cfg env1 (mkRequest "tidal_hush" (Some a1)) s))
                (Call env2 (mkRequest "tidal_hush" (Some a2)))) as H2.
  simpl in H1, H2. rewrite H2, H1. split; [apply hush_channels_idem|].
  split; [|apply hush_channels_cleared].
  unfold JSMap.keys. rewrite map_map. reflexivity.
Qed.

(** ** C9: the file sink *)

(** C9: when the write goes through, the output file holds the two comment
    lines (the server's name, then the timestamp the host printed), an empty
    line, the command and a line end, and nothing of what it held before;
    the other files are as they were. *)
Theorem file_sink_full_replace cfg env code s :
  writeFile_error env = None ->
  let r := writeToTidalFile cfg env code s in
  fst r = Ok tt /\
  files (snd r) !! tidalFile cfg =
    Some ("-- TidalCycles MCP Server" +:+ nl +:+
          "-- Auto-generated at " +:+ toISOString env 1 +:+ nl +:+ nl +:+
          code +:+ nl) /\
  (forall s0, files (snd (writeToTidalFile cfg env code s0)) !! tidalFile cfg =
              files (snd r) !! tidalFile cfg) /\
  (forall path, path <> tidalFile cfg -> files (snd r) !! path = files s !! path).
Proof.
  intros Hok. cbv zeta. unfold writeToTidalFile, fs_writeFile. rewrite Hok.
  cbn [fst snd files emit set_files].
  split; [reflexivity|]. split; [apply lookup_insert_eq|].
  split.
  - intros s0. rewrite !lookup_insert_eq. reflexivity.
  - intros path Hne. apply lookup_insert_ne. congruence.
Qed.

Lemma file_sink_full_replace_witness :
  let s := snd (writeToTidalFile Sample.file_cfg Sample.env_ok "d1 $ s bd"
                  Sample.file_boot) in
  files (snd (writeToTidalFile Sample.file_cfg Sample.env_ok "hush" s))
    !! tidalFile Sample.file_cfg =
  Some ("-- TidalCycles MCP Server" +:+ nl +:+
        "-- Auto-generated at 2025-01-01T00:00:00.000Z" +:+ nl +:+ nl +:+
        "hush" +:+ nl).
Proof.
  cbv zeta.
  destruct (file_sink_full_replace Sample.file_cfg Sample.env_ok "hush"
              (snd (writeToTidalFile Sample.file_cfg Sample.env_ok "d1 $ s bd"
                      Sample.file_boot)))
    as (_ & H & _); [reflexivity|].
  exact H.
Defined.

(** ** C10: unsolo *)

Lemma logAction_interpreter env action details s :
  ghciProcess (snd (logAction env action details s)) = ghciProcess s /\
  isGhciHealthy (snd (logAction env action details s)) = isGhciHealthy s.
Proof.
  unfold logAction, swallow, fs_appendFile.
  destruct (appendFile_error env); split; reflexivity.
Qed.

(** A healthy interpreter and a pipe that takes the write: the send is the
    one write, to the process held. *)
Lemma sendToGhci_healthy_ok cfg env code s :
  isGhciHealthy s = true -> stdin_write_error env = None ->
  exists p, ghciProcess s = Some p /\
    sendToGhci cfg env code s = (Ok tt, emit (StdinWrite (pid p) (code +:+ nl)) s).
Proof.
  intros Hh Hw. unfold sendToGhci, bind, sendToGhci_enter. rewrite Hh. simpl.
  unfold isGhciHealthy in Hh. unfold stdin_write.
  destruct (ghciProcess s) as [p|]; [|rewrite andb_false_r in Hh; discriminate].
  exists p. split; [reflexivity|].
  apply andb_prop in Hh as [_ Hp]. apply andb_prop in Hp as [Hp _].
  apply andb_prop in Hp as [Hstdin Hd]. rewrite Hstdin.
  destruct (stdin_destroyed p); [discriminate|]. rewrite Hw. reflexivity.
Qed.

(** A writable output file: the file sink returns and the file holds the
    header and the command. *)
Lemma writeToTidalFile_ok cfg env code s :
  useGhci cfg = false -> writeFile_error env = None ->
  fst (submit cfg env code s) = Ok tt /\
  files (snd (submit cfg env code s)) !! tidalFile cfg =
    Some (tidal_file_content (toISOString env 1) code).
Proof.
  intros Hf Hw. unfold submit, writeToTidalFile, fs_writeFile. rewrite Hf, Hw.
  split; [reflexivity|]. apply lookup_insert_eq.
Qed.

Lemma fst_reply text x : fst (reply text x) = match fst x with
                                              | Ok _ => Ok text
                                              | Thrown e => Thrown e
                                              end.
Proof. destruct x as [[u|e] s']; reflexivity. Qed.

Lemma snd_reply text x : snd (reply text x) = snd x.
Proof. destruct x as [[u|e] s']; reflexivity. Qed.

(** C10: whatever the state, and so whatever was soloed before, an unsolo
    call leaves the channel table and the history as they were, and what it
    does is log, then hand the sink the command "unsolo $ d1", and answer
    as the sink did: its confirmation when the sink returned, the sink's
    error when it threw. The only text the sink is given is that command:
    one write of it when the sink returns, none when the sink throws. With
    a writable output file in file mode the call returns and the file holds
    the header and "unsolo $ d1"; with a healthy interpreter and a pipe
    that takes the write in GHCi mode the call returns and the line
    "unsolo $ d1" is written to the stdin of the process held. *)
Theorem unsolo_fixed_command cfg env a s :
  let r := dispatch cfg env (mkRequest "tidal_unsolo" (Some a)) s in
  let s1 := snd (logAction env "UNSOLO" (Some "Restored all channels") s) in
  let text := "✓ Unsolo applied. All channels restored." in
  same_store s (snd r) /\
  writes (written (fst r) (sink_text cfg env "unsolo $ d1")) s (snd r) /\
  (forall env0 c,
     let s0 := snd (solo cfg env0 c s) in
     let r0 := dispatch cfg env (mkRequest "tidal_unsolo" (Some a)) s0 in
     same_store s (snd r0) /\
     writes (written (fst r0) (sink_text cfg env "unsolo $ d1")) s0 (snd r0)) /\
  r = reply text (submit cfg env "unsolo $ d1" s1) /\
  writes (written (fst (submit cfg env "unsolo $ d1" s1))
            (sink_text cfg env "unsolo $ d1")) s (snd r) /\
  (useGhci cfg = false -> writeFile_error env = None ->
   fst r = Ok text /\
   writes [tidal_file_content (toISOString env 1) "unsolo $ d1"] s (snd r) /\
   files (snd r) !! tidalFile cfg =
     Some (tidal_file_content (toISOString env 1) "unsolo $ d1")) /\
  (useGhci cfg = true -> isGhciHealthy s = true -> stdin_write_error env = None ->
   fst r = Ok text /\
   writes ["unsolo $ d1" +:+ nl] s (snd r) /\
   exists p, ghciProcess s = Some p /\
     effects (snd r) = (effects s1 ++ [StdinWrite (pid p) ("unsolo $ d1" +:+ nl)])%list).
Proof.
  cbv zeta.
  change (dispatch cfg env (mkRequest "tidal_unsolo" (Some a))) with (unsolo cfg env).
  assert (Hreply : unsolo cfg env s =
            reply "✓ Unsolo applied. All channels restored."
              (submit cfg env "unsolo $ d1"
                 (snd (logAction env "UNSOLO" (Some "Restored all channels") s))))
    by reflexivity.
  pose proof (unsolo_writes cfg env s) as Hwrites.
  split; [apply unsolo_store|]. split; [exact Hwrites|]. split.
  { intros env0 c. split; [|apply unsolo_writes].
    eapply same_store_trans; [apply solo_store | apply unsolo_store]. }
  split; [exact Hreply|]. split.
  { rewrite Hreply, fst_reply in Hwrites. rewrite Hreply.
    destruct (fst (submit cfg env "unsolo $ d1"
                     (snd (logAction env "UNSOLO" (Some "Restored all channels") s))));
      exact Hwrites. }
  split.
  - intros Hf Hw.
    destruct (writeToTidalFile_ok cfg env "unsolo $ d1"
                (snd (logAction env "UNSOLO" (Some "Restored all channels") s)) Hf Hw)
      as [Hok Hfile].
    assert (Hfst : fst (unsolo cfg env s) = Ok "✓ Unsolo applied. All channels restored.")
      by (rewrite Hreply, fst_reply, Hok; reflexivity).
    split; [exact Hfst|]. split.
    + rewrite Hfst in Hwrites. unfold written, sink_text in Hwrites.
      rewrite Hf in Hwrites. exact Hwrites.
    + rewrite Hreply, snd_reply. exact Hfile.
  - intros Hg Hh Hw.
    destruct (logAction_interpreter env "UNSOLO" (Some "Restored all channels") s)
      as [Hproc Hhealth].
    destruct (sendToGhci_healthy_ok cfg env "unsolo $ d1"
                (snd (logAction env "UNSOLO" (Some "Restored all channels") s)))
      as (p & Hp & Hsend); [congruence | exact Hw |].
    assert (Hsub : submit cfg env "unsolo $ d1"
                     (snd (logAction env "UNSOLO" (Some "Restored all channels") s)) =
                   (Ok tt, emit (StdinWrite (pid p) ("unsolo $ d1" +:+ nl))
                             (snd (logAction env "UNSOLO"
                                     (Some "Restored all channels") s)))).
    { unfold submit. rewrite Hg. exact Hsend. }
    assert (Hfst : fst (unsolo cfg env s) = Ok "✓ Unsolo applied. All channels restored.")
      by (rewrite Hreply, Hsub; reflexivity).
    split; [exact Hfst|]. split.
    + rewrite Hfst in Hwrites. unfold written, sink_text in Hwrites.
      rewrite Hg in Hwrites. exact Hwrites.
    + exists p. split; [congruence|]. rewrite Hreply, Hsub. reflexivity.
Qed.

Lemma unsolo_fixed_command_witness :
  let unsolo_request := mkRequest "tidal_unsolo" (Some Sample.args_none) in
  let r_file := dispatch Sample.file_cfg Sample.env_ok unsolo_request Sample.file_boot in
  let r_pipe := dispatch Sample.ghci_cfg Sample.env_ok unsolo_request Sample.ghci_boot in
  (fst r_file = Ok "✓ Unsolo applied. All channels restored." /\
   files (snd r_file) !! tidalFile Sample.file_cfg =
     Some (tidal_file_content "2025-01-01T00:00:00.000Z" "unsolo $ d1")) /\
  (fst r_pipe = Ok "✓ Unsolo applied. All channels restored." /\
   writes ["unsolo $ d1" +:+ nl] Sample.ghci_boot (snd r_pipe)).
Proof.
  cbv zeta. split.
  - destruct (unsolo_fixed_command Sample.file_cfg Sample.env_ok Sample.args_none
                Sample.file_boot) as (_ & _ & _ & _ & _ & Hfile & _).
    destruct (Hfile eq_refl eq_refl) as (Hok & _ & Hcontent).
    split; [exact Hok | exact Hcontent].
  - destruct (unsolo_fixed_command Sample.ghci_cfg Sample.env_ok Sample.args_none
                Sample.ghci_boot) as (_ & _ & _ & _ & _ & _ & Hpipe).
    destruct (Hpipe eq_refl eq_refl eq_refl) as (Hok & Hline & _).
    split; [exact Hok | exact Hline].
Defined.

(** ** The history *)

Lemma exec_snoc cfg s inputs i :
  exec cfg s (inputs ++ [i]) = step cfg (exec cfg s inputs) i.
Proof. unfold exec. rewrite fold_left_app. reflexivity. Qed.

Lemma appended_app l1 l2 : appended (l1 ++ l2) = (appended l1 ++ appended l2)%list.
Proof. unfold appended. rewrite omap_app, map_app. reflexivity. Qed.

(** The history of a session is the history it started with followed by
    one entry per evaluate call, in call order. *)
Lemma exec_history cfg s inputs :
  patternHistory (exec cfg s inputs) = (patternHistory s ++ appended inputs)%list.
Proof.
  induction inputs as [|i inputs IH] using rev_ind.
  - simpl. rewrite app_nil_r. reflexivity.
  - rewrite exec_snoc, step_history, IH, appended_app, app_assoc. reflexivity.
Qed.

Lemma run_store cfg env : frame same_store (run cfg env).
Proof.
  unfold run. apply store_bind.
  - destruct (useGhci cfg); [|apply store_ret].
    unfold startGhci. apply store_bind; [apply startGhci_begin_store|].
    intros []; [apply store_ret|]. intros s. apply await_init_store.
  - intros _ s. exact (fs_writeFile_store env _ _ s).
Qed.

Lemma booted_store cfg default_log env s0 :
  run cfg env (constructor cfg default_log) = (Ok tt, s0) ->
  channels s0 = initial_channels /\ patternHistory s0 = [].
Proof.
  intros H. pose proof (run_store cfg env (constructor cfg default_log)) as [Hc Hh].
  rewrite H in Hc, Hh. simpl in Hc, Hh. split; assumption.
Qed.

Lemma recent_positive k s :
  (0 < k)%Z ->
  recent k s = take (Z.to_nat k) (reverse (patternHistory s)).
Proof.
  intros Hk. unfold recent, Array_slice.
  assert ((- k <? 0)%Z = true) as -> by (apply Z.ltb_lt; lia).
  rewrite reverse_drop.
  destruct (Z.max_spec (Z.of_nat (length (patternHistory s)) + - k) 0)
    as [[Hlt ->]|[Hge ->]].
  - simpl. rewrite Nat.sub_0_r.
    rewrite !take_ge; [reflexivity| |]; rewrite length_reverse; lia.
  - f_equal. lia.
Qed.

Lemma recent_zero s : recent 0 s = reverse (patternHistory s).
Proof.
  unfold recent, Array_slice. cbn [Z.opp Z.ltb Z.compare].
  rewrite Z.min_l by lia. reflexivity.
Qed.

Lemma recent_negative k s :
  (k < 0)%Z ->
  recent k s = reverse (drop (Z.to_nat (- k)) (patternHistory s)).
Proof.
  intros Hk. unfold recent, Array_slice.
  assert ((- k <? 0)%Z = false) as -> by (apply Z.ltb_ge; lia).
  f_equal.
  destruct (Z.min_spec (- k) (Z.of_nat (length (patternHistory s)))) as [[_ ->]|[H ->]].
  - reflexivity.
  - rewrite Nat2Z.id. rewrite drop_all. symmetry. apply drop_ge. lia.
Qed.

(** ** C5: a limit of zero or below *)

(** C5 does not hold of the code, which takes [slice(-limit)]: with limit 0
    that is [slice(0)], the whole history, and with a negative limit it is
    the history without its first [-limit] entries. After one evaluate call
    a query with limit 0 lists that call, numbered 0; after two, a query
    with limit -1 lists the later one. *)
Theorem history_limit_zero_lists_everything :
  (forall s, recent 0 s = reverse (patternHistory s)) /\
  let s1 := exec Sample.file_cfg Sample.file_boot
              [Call Sample.env_ok (eval_request "d1" "s bd")] in
  let s2 := exec Sample.file_cfg s1
              [Call (Sample.env_at 2000) (eval_request "d2" "s sn")] in
  recent 0 s1 = [mkHistoryEntry "d1" "s bd" 1001] /\
  fst (handle Sample.file_cfg (Sample.env_at 5000) (history_request (Some 0%Z)) s1) =
    "Recent patterns:" +:+ nl +:+ "0. d1: s bd (3s ago)" /\
  recent (-1) s2 = [mkHistoryEntry "d2" "s sn" 2001] /\
  fst (handle Sample.file_cfg (Sample.env_at 5000) (history_request (Some (-1)%Z)) s2) =
    "Recent patterns:" +:+ nl +:+ "-1. d2: s sn (2s ago)".
Proof. split; [exact recent_zero|]. vm_compute. repeat split; reflexivity. Qed.

(** ** C6: the most recent k entries *)

(** C6: after a session started on a fresh server, with N evaluate calls
    among its inputs, a query with limit k, 0 < k <= N, works on exactly k
    entries: the first k of the appended entries read newest first. The
    text returned lists them in that order, and a query without a limit is
    the query with limit 10. *)
Theorem history_returns_last_k cfg default_log env0 s0 inputs k env :
  run cfg env0 (constructor cfg default_log) = (Ok tt, s0) ->
  (0 < k <= Z.of_nat (length (appended inputs)))%Z ->
  let s := exec cfg s0 inputs in
  let newest_first := take (Z.to_nat k) (reverse (appended inputs)) in
  recent k s = newest_first /\
  length newest_first = Z.to_nat k /\
  newest_first = reverse (drop (length (appended inputs) - Z.to_nat k) (appended inputs)) /\
  getHistory env (Some k) s =
    (Ok ("Recent patterns:" +:+ nl +:+ join nl (imap (history_line k env) newest_first)), s) /\
  getHistory env None s = getHistory env (Some 10%Z) s.
Proof.
  intros Hboot Hk. cbv zeta.
  destruct (booted_store _ _ _ _ Hboot) as [_ Hh0].
  assert (Hhist : patternHistory (exec cfg s0 inputs) = appended inputs).
  { rewrite exec_history, Hh0. reflexivity. }
  assert (Hrec : recent k (exec cfg s0 inputs) =
                 take (Z.to_nat k) (reverse (appended inputs))).
  { rewrite recent_positive by lia. rewrite Hhist. reflexivity. }
  assert (Hlen : length (take (Z.to_nat k) (reverse (appended inputs))) = Z.to_nat k).
  { rewrite length_take_le; [reflexivity|]. rewrite length_reverse. lia. }
  split; [exact Hrec|]. split; [exact Hlen|].
  split; [apply take_reverse|].
  split; [|reflexivity].
  unfold getHistory. change (default_limit (Some k)) with k. cbv zeta.
  rewrite Hrec, Hlen.
  destruct (Nat.eqb_spec (Z.to_nat k) 0) as [E|_]; [lia|reflexivity].
Qed.

Lemma history_returns_last_k_witness :
  let s := exec Sample.file_cfg Sample.file_boot
             [Call Sample.env_ok (eval_request "d1" "s bd");
              Call (Sample.env_at 2000) (eval_request "d1" "s sn");
              Call (Sample.env_at 3000) (eval_request "d2" "s hh")] in
  recent 2 s = [mkHistoryEntry "d2" "s hh" 3001; mkHistoryEntry "d1" "s sn" 2001].
Proof.
  cbv zeta.
  destruct (history_returns_last_k Sample.file_cfg Sample.log_path Sample.env_ok
              Sample.file_boot
              [Call Sample.env_ok (eval_request "d1" "s bd");
               Call (Sample.env_at 2000) (eval_request "d1" "s sn");
               Call (Sample.env_at 3000) (eval_request "d2" "s hh")]
              2%Z Sample.env_ok)
    as (H & _); [reflexivity | simpl; lia |].
  exact H.
Defined.

(** ** The channel table as an insertion-ordered map *)

Lemma keys_set_in {V} k (v : V) m :
  In k (JSMap.keys m) -> JSMap.keys (JSMap.set k v m) = JSMap.keys m.
Proof.
  induction m as [|[k' v'] m IH]; simpl; [tauto|]. intros Hin.
  destruct (String.eqb_spec k k') as [->|Hne]; simpl; [reflexivity|].
  f_equal. apply IH. destruct Hin as [E|Hin]; [congruence|exact Hin].
Qed.

Lemma keys_set_notin {V} k (v : V) m :
  ~ In k (JSMap.keys m) -> JSMap.keys (JSMap.set k v m) = (JSMap.keys m ++ [k])%list.
Proof.
  induction m as [|[k' v'] m IH]; simpl; [reflexivity|]. intros Hnin.
  destruct (String.eqb_spec k k') as [->|Hne]; simpl; [tauto|].
  f_equal. apply IH. tauto.
Qed.

Lemma keys_update {V} k (f : V -> V) m :
  JSMap.keys (JSMap.update k f m) = JSMap.keys m.
Proof.
  induction m as [|[k' v'] m IH]; simpl; [reflexivity|].
  destruct (String.eqb k k'); simpl; [reflexivity|]. f_equal. exact IH.
Qed.

Lemma keys_clear_all (m : JSMap.t ChannelState) :
  JSMap.keys (map (fun kv => (fst kv, clear_state (snd kv))) m) = JSMap.keys m.
Proof. unfold JSMap.keys. rewrite map_map. reflexivity. Qed.

Lemma in_set {V} k (v : V) m k' v' :
  In (k', v') (JSMap.set k v m) -> (k', v') = (k, v) \/ In (k', v') m.
Proof.
  induction m as [|[k0 v0] m IH]; simpl.
  - intros [E|[]]. left. congruence.
  - destruct (String.eqb k k0); simpl; intros [E|Hin]; auto.
    destruct (IH Hin); auto.
Qed.

Lemma in_update {V} k (f : V -> V) m k' v' :
  In (k', v') (JSMap.update k f m) -> In (k', v') m \/ exists v0, In (k', v0) m /\ v' = f v0.
Proof.
  induction m as [|[k0 v0] m IH]; simpl; [tauto|].
  destruct (String.eqb k k0); simpl; intros [E|Hin]; auto.
  - right. exists v0. injection E as <- <-. auto.
  - destruct (IH Hin) as [H|(v1 & H & ->)]; eauto.
Qed.

Lemma in_clear_all (m : JSMap.t ChannelState) k c :
  In (k, c) (map (fun kv => (fst kv, clear_state (snd kv))) m) ->
  exists c0, In (k, c0) m /\ c = clear_state c0.
Proof.
  rewrite in_map_iff. intros ([k0 c0] & E & Hin). simpl in E.
  injection E as <- <-. eauto.
Qed.

Lemma occurrences_notin k (ks : list string) :
  ~ In k ks -> length (List.filter (String.eqb k) ks) = 0.
Proof.
  induction ks as [|k' ks IH]; simpl; [reflexivity|].
  intros Hnin. destruct (String.eqb_spec k k') as [->|Hne]; [tauto|]. apply IH. tauto.
Qed.

Lemma occurrences_one k (ks : list string) :
  List.NoDup ks -> In k ks -> length (List.filter (String.eqb k) ks) = 1.
Proof.
  induction ks as [|k' ks IH]; simpl; [tauto|].
  intros Hnd Hin. inversion Hnd as [|? ? Hnin Hnd']; subst.
  destruct (String.eqb_spec k k') as [->|Hne]; simpl.
  - f_equal. apply occurrences_notin. exact Hnin.
  - apply IH; [exact Hnd'|]. destruct Hin as [E|Hin]; [congruence|exact Hin].
Qed.

(** A key of a map without duplicate keys has exactly one entry. *)
Lemma count_one {V} k (m : JSMap.t V) :
  List.NoDup (JSMap.keys m) -> In k (JSMap.keys m) -> JSMap.count k m = 1.
Proof. apply occurrences_one. Qed.

Lemma nodup_snoc (k : string) ks :
  List.NoDup ks -> ~ In k ks -> List.NoDup (ks ++ [k]).
Proof.
  induction ks as [|k' ks IH]; simpl; intros Hnd Hnin.
  - constructor; [simpl; tauto | constructor].
  - inversion Hnd as [|? ? Hk' Hnd']; subst. constructor.
    + rewrite in_app_iff. simpl. intros [H|[H|[]]]; [tauto|]. subst. tauto.
    + apply IH; [exact Hnd' | tauto].
Qed.

Lemma nodup_set {V} k (v : V) m :
  List.NoDup (JSMap.keys m) -> List.NoDup (JSMap.keys (JSMap.set k v m)).
Proof.
  intros Hnd. destruct (in_dec String.string_dec k (JSMap.keys m)) as [Hin|Hnin].
  - rewrite keys_set_in by exact Hin. exact Hnd.
  - rewrite keys_set_notin by exact Hnin. apply nodup_snoc; assumption.
Qed.

(** What an input can do to the channel table. *)
Lemma store_effect_cases i m :
  store_effect i m = m \/
  (exists env c p, eval_call i = Some (env, c, p) /\
     store_effect i m = JSMap.set c (mkChannelState c p (Date_now env 0) true) m) \/
  store_effect i m = map (fun kv => (fst kv, clear_state (snd kv))) m \/
  (exists c, store_effect i m = JSMap.update c clear_state m).
Proof.
  destruct i as [env req|ev]; simpl; [|auto].
  destruct (arguments req) as [a|]; [|auto].
  destruct (String.eqb (name req) "tidal_eval"); [right; left; eauto|].
  destruct (String.eqb (name req) "tidal_hush"); [auto|].
  destruct (String.eqb (name req) "tidal_silence"); [right; right; right; eauto|auto].
Qed.

(** Induction over a session for a property of the channel table. *)
Lemma exec_channels_ind (P : JSMap.t ChannelState -> Prop) (ok : Input -> bool)
  cfg inputs :
  (forall i m, ok i = true -> P m -> P (store_effect i m)) ->
  forallb ok inputs = true ->
  forall s, P (channels s) -> P (channels (exec cfg s inputs)).
Proof.
  intros Hstep. induction inputs as [|i inputs IH]; simpl; intros Hok s Hs; [exact Hs|].
  apply andb_prop in Hok as [Hi Hrest].
  apply IH; [exact Hrest|]. rewrite step_channels. apply Hstep; assumption.
Qed.

Lemma forallb_true {A} (l : list A) : forallb (fun _ => true) l = true.
Proof. induction l; simpl; auto. Qed.

Lemma initial_keys : JSMap.keys initial_channels = valid_channels.
Proof. reflexivity. Qed.

Lemma valid_channels_nodup : List.NoDup valid_channels.
Proof.
  unfold valid_channels.
  repeat (constructor; [simpl; intuition discriminate|]). constructor.
Qed.

Lemma initial_table_ok : table_ok initial_channels.
Proof.
  split; [rewrite initial_keys; apply valid_channels_nodup|].
  split; [intros id Hid; rewrite initial_keys; exact Hid|].
  intros k c Hin. vm_compute in Hin.
  repeat (destruct Hin as [E|Hin]; [injection E as <- <-; split; reflexivity|]).
  destruct Hin.
Qed.

Lemma initial_table_strict : table_strict initial_channels.
Proof.
  intros k c Hin _. vm_compute in Hin.
  repeat (destruct Hin as [E|Hin]; [injection E as <- <-; reflexivity|]).
  destruct Hin.
Qed.

Lemma in_keys {V} k (v : V) m : In (k, v) m -> In k (JSMap.keys m).
Proof. intros H. apply (in_map fst) in H. exact H. Qed.

Lemma store_effect_ok i m : table_ok m -> table_ok (store_effect i m).
Proof.
  intros (Hnd & Hval & Hrec).
  destruct (store_effect_cases i m)
    as [->|[(env & c & p & _ & ->)|[->|(c & ->)]]]; unfold table_ok.
  - split; [exact Hnd|]. split; [exact Hval | exact Hrec].
  - split; [apply nodup_set; exact Hnd|]. split.
    + intros id Hid. specialize (Hval id Hid).
      destruct (in_dec String.string_dec c (JSMap.keys m)) as [Hin|Hnin].
      * rewrite keys_set_in by exact Hin. exact Hval.
      * rewrite keys_set_notin by exact Hnin. apply in_or_app. auto.
    + intros k r Hin. apply in_set in Hin as [E|Hin]; [|apply Hrec; exact Hin].
      injection E as -> ->. split; [reflexivity|]. simpl. discriminate.
  - rewrite keys_clear_all. split; [exact Hnd|]. split; [exact Hval|].
    intros k r Hin. apply in_clear_all in Hin as (c0 & Hin & ->).
    split; [apply (Hrec k c0 Hin) | reflexivity].
  - rewrite keys_update. split; [exact Hnd|]. split; [exact Hval|].
    intros k r Hin. apply in_update in Hin as [Hin|(c0 & Hin & ->)].
    + apply Hrec; exact Hin.
    + split; [apply (Hrec k c0 Hin) | reflexivity].
Qed.

Lemma store_effect_strict i m :
  eval_pattern_nonempty i = true -> table_strict m -> table_strict (store_effect i m).
Proof.
  intros Hne Hm.
  destruct (store_effect_cases i m)
    as [->|[(env & c & p & Hcall & ->)|[->|(c & ->)]]].
  - exact Hm.
  - intros k r Hin Hp. apply in_set in Hin as [E|Hin]; [|apply (Hm k); assumption].
    injection E as -> ->. simpl in Hp. subst p.
    unfold eval_pattern_nonempty in Hne. rewrite Hcall in Hne. discriminate.
  - intros k r Hin _. apply in_clear_all in Hin as (c0 & _ & ->). reflexivity.
  - intros k r Hin Hp. apply in_update in Hin as [Hin|(c0 & _ & ->)];
      [apply (Hm k); assumption | reflexivity].
Qed.

Lemma exec_table_ok cfg default_log env0 s0 inputs :
  run cfg env0 (constructor cfg default_log) = (Ok tt, s0) ->
  table_ok (channels (exec cfg s0 inputs)).
Proof.
  intros Hboot. destruct (booted_store _ _ _ _ Hboot) as [Hc _].
  apply (exec_channels_ind table_ok (fun _ => true)).
  - intros i m _. apply store_effect_ok.
  - apply forallb_true.
  - rewrite Hc. apply initial_table_ok.
Qed.

Lemma reachable_table_ok cfg s : reachable cfg s -> table_ok (channels s).
Proof.
  intros (s0 & inputs & (default_log & env0 & Hboot) & ->).
  apply (exec_table_ok cfg default_log env0 s0 inputs Hboot).
Qed.

(** ** C2: one record per identifier, inactive records empty *)

(** C2, as stated, fails in one direction: an evaluate call with the empty
    text as its pattern is accepted and leaves d1 active with empty
    content. *)
Lemma evaluate_empty_pattern_is_active :
  let s := exec Sample.file_cfg Sample.file_boot
             [Call Sample.env_ok (eval_request "d1" "")] in
  JSMap.get "d1" (channels s) = Some (mkChannelState "d1" "" 1000 true) /\
  ~ (forall c, JSMap.get "d1" (channels s) = Some c ->
               (active c = false <-> pattern c = "")).
Proof.
  split; [reflexivity|]. intros H.
  destruct (H (mkChannelState "d1" "" 1000 true)) as [_ H2]; [reflexivity|].
  specialize (H2 eq_refl). discriminate.
Qed.

(** C2, amended: after start-up and after every input, each of d1..d9 has
    exactly one record, stored under its own identifier, and every inactive
    record has empty content. The converse, that a record with empty
    content is inactive, holds of every session in which no evaluate call
    carried the empty text. *)
Theorem channel_table_invariant cfg default_log env0 s0 inputs :
  run cfg env0 (constructor cfg default_log) = (Ok tt, s0) ->
  let s := exec cfg s0 inputs in
  (forall id, In id valid_channels ->
     JSMap.count id (channels s) = 1 /\
     exists c, JSMap.get id (channels s) = Some c /\ channel c = id) /\
  (forall k c, In (k, c) (channels s) -> active c = false -> pattern c = "") /\
  (forallb eval_pattern_nonempty inputs = true ->
   forall k c, In (k, c) (channels s) -> (active c = false <-> pattern c = "")).
Proof.
  intros Hboot. cbv zeta.
  pose proof (exec_table_ok cfg default_log env0 s0 inputs Hboot) as (Hnd & Hval & Hrec).
  split; [|split].
  - intros id Hid. split; [apply count_one; auto|].
    specialize (Hval id Hid).
    assert (Hget : forall m : JSMap.t ChannelState,
               In id (JSMap.keys m) -> exists c, JSMap.get id m = Some c /\ In (id, c) m).
    { induction m as [|[k c] m IH]; simpl; [tauto|]. intros Hin.
      destruct (String.eqb_spec id k) as [->|Hne]; [eauto|].
      destruct Hin as [E|Hin]; [congruence|].
      destruct (IH Hin) as (c0 & Hg & Hi). eauto. }
    destruct (Hget _ Hval) as (c & Hg & Hi). exists c. split; [exact Hg|].
    apply (Hrec id c Hi).
  - intros k c Hin. apply (Hrec k c Hin).
  - intros Hne k c Hin. split; [apply (Hrec k c Hin)|].
    destruct (booted_store _ _ _ _ Hboot) as [Hc _].
    assert (Hs : table_strict (channels (exec cfg s0 inputs))).
    { apply (exec_channels_ind table_strict eval_pattern_nonempty).
      - apply store_effect_strict.
      - exact Hne.
      - rewrite Hc. apply initial_table_strict. }
    apply (Hs k c Hin).
Qed.

Lemma channel_table_invariant_witness :
  let s := exec Sample.file_cfg Sample.file_boot
             [Call Sample.env_ok (eval_request "d3" "s bd");
              Call (Sample.env_at 2000) (tool_request "tidal_silence" "d3");
              Call (Sample.env_at 3000) (eval_request "d2" "s sn")] in
  let d3 := mkChannelState "d3" "" 1000 false in
  JSMap.get "d3" (channels s) = Some d3 /\
  (active d3 = false <-> pattern d3 = "").
Proof.
  cbv zeta. split; [reflexivity|].
  destruct (channel_table_invariant Sample.file_cfg Sample.log_path Sample.env_ok
              Sample.file_boot
              [Call Sample.env_ok (eval_request "d3" "s bd");
               Call (Sample.env_at 2000) (tool_request "tidal_silence" "d3");
               Call (Sample.env_at 3000) (eval_request "d2" "s sn")])
    as (_ & _ & H); [reflexivity|].
  apply (H eq_refl "d3"). vm_compute. tauto.
Defined.

(** ** C7: the order of the active channels *)

Lemma omap_ext_in {A B} (f g : A -> option B) l :
  (forall x, In x l -> f x = g x) -> omap f l = omap g l.
Proof.
  induction l as [|x l IH]; simpl; intros H; [reflexivity|].
  rewrite (H x) by auto. destruct (g x); [f_equal|]; apply IH; auto.
Qed.

Lemma get_cons_ne {V} k k' (v : V) m :
  k <> k' -> JSMap.get k ((k', v) :: m) = JSMap.get k m.
Proof. intros Hne. simpl. destruct (String.eqb_spec k k'); [tauto|reflexivity]. Qed.

(** With unique keys, filtering the values in table order is looking the
    keys up in table order. *)
Lemma active_values_by_key (m : JSMap.t ChannelState) :
  List.NoDup (JSMap.keys m) ->
  List.filter active (JSMap.values m) = omap (active_in m) (JSMap.keys m).
Proof.
  induction m as [|[k c] m IH]; intros Hnd; [reflexivity|].
  change (JSMap.keys ((k, c) :: m)) with (k :: JSMap.keys m) in *.
  change (JSMap.values ((k, c) :: m)) with (c :: JSMap.values m).
  inversion Hnd as [|? ? Hnin Hnd']; subst.
  assert (Htail : omap (active_in ((k, c) :: m)) (JSMap.keys m) =
                  omap (active_in m) (JSMap.keys m)).
  { apply omap_ext_in. intros x Hx. unfold active_in.
    rewrite get_cons_ne; [reflexivity|]. intros ->. tauto. }
  change (omap (active_in ((k, c) :: m)) (k :: JSMap.keys m)) with
    (match active_in ((k, c) :: m) k with
     | Some y => y :: omap (active_in ((k, c) :: m)) (JSMap.keys m)
     | None => omap (active_in ((k, c) :: m)) (JSMap.keys m)
     end).
  rewrite Htail, <- IH by exact Hnd'.
  unfold active_in. simpl. rewrite String.eqb_refl.
  destruct (active c); reflexivity.
Qed.

Lemma active_ids_by_key (m : JSMap.t ChannelState) :
  List.NoDup (JSMap.keys m) ->
  (forall k c, In (k, c) m -> channel c = k) ->
  map channel (List.filter active (JSMap.values m)) =
  List.filter (fun id => match JSMap.get id m with Some c => active c | None => false end)
    (JSMap.keys m).
Proof.
  induction m as [|[k c] m IH]; simpl; intros Hnd Hch; [reflexivity|].
  inversion Hnd as [|? ? Hnin Hnd']; subst.
  rewrite String.eqb_refl.
  assert (Htail :
    List.filter (fun id => match (if String.eqb id k then Some c else JSMap.get id m) with
                           | Some c0 => active c0 | None => false end) (JSMap.keys m) =
    List.filter (fun id => match JSMap.get id m with Some c0 => active c0 | None => false end)
      (JSMap.keys m)).
  { apply filter_ext_in. intros x Hx.
    destruct (String.eqb_spec x k) as [->|_]; [tauto|reflexivity]. }
  rewrite Htail, <- IH by auto.
  destruct (active c); simpl; [|reflexivity].
  rewrite (Hch k c) by auto. reflexivity.
Qed.

(** C7, as stated, fails on the records of identifiers outside d1..d9, which
    evaluate accepts: they are listed in the order in which they were first
    evaluated. Evaluating d11 then d10 lists d11 before d10; the other call
    order gives the same records and lists d10 before d11. *)
Lemma active_order_follows_first_evaluation :
  let a := Call Sample.env_ok (eval_request "d11" "s bd") in
  let b := Call Sample.env_ok (eval_request "d10" "s sn") in
  let s_ab := exec Sample.file_cfg Sample.file_boot [a; b] in
  let s_ba := exec Sample.file_cfg Sample.file_boot [b; a] in
  map channel (getActive s_ab) = ["d11"; "d10"] /\
  map channel (getActive s_ba) = ["d10"; "d11"] /\
  (forall c, In c (getActive s_ab) <-> In c (getActive s_ba)) /\
  getActive s_ab <> getActive s_ba.
Proof.
  cbv zeta. split; [reflexivity|]. split; [reflexivity|]. split.
  - intros c. vm_compute. tauto.
  - vm_compute. discriminate.
Qed.

Lemma store_effect_keys i m :
  JSMap.keys (store_effect i m) =
  match eval_call i with
  | Some (_, c, _) =>
      if existsb (String.eqb c) (JSMap.keys m) then JSMap.keys m
      else (JSMap.keys m ++ [c])%list
  | None => JSMap.keys m
  end.
Proof.
  destruct i as [env req|ev]; simpl; [|reflexivity].
  destruct (arguments req) as [a|];
    [|destruct (String.eqb (name req) "tidal_eval"); reflexivity].
  destruct (String.eqb (name req) "tidal_eval").
  - destruct (existsb (String.eqb (arg_channel a)) (JSMap.keys m)) eqn:E.
    + apply keys_set_in. apply existsb_exists in E as (x & Hx & Ex).
      apply String.eqb_eq in Ex. subst x. exact Hx.
    + apply keys_set_notin. intros Hin.
      assert (existsb (String.eqb (arg_channel a)) (JSMap.keys m) = true) as E'.
      { apply existsb_exists. exists (arg_channel a). split; [exact Hin|].
        apply String.eqb_refl. }
      congruence.
  - destruct (String.eqb (name req) "tidal_hush"); [apply keys_clear_all|].
    destruct (String.eqb (name req) "tidal_silence"); [apply keys_update|reflexivity].
Qed.

(** The keys of the table: d1..d9, then the other identifiers in the order
    in which they were first evaluated. *)
Lemma exec_keys cfg inputs :
  forall s seen,
    JSMap.keys (channels s) = (valid_channels ++ seen)%list ->
    JSMap.keys (channels (exec cfg s inputs)) =
      (valid_channels ++ fold_left note_channel inputs seen)%list.
Proof.
  induction inputs as [|i inputs IH]; intros s seen Hs; [exact Hs|].
  change (exec cfg s (i :: inputs)) with (exec cfg (step cfg s i) inputs).
  change (fold_left note_channel (i :: inputs) seen)
    with (fold_left note_channel inputs (note_channel seen i)).
  apply IH. rewrite step_channels, store_effect_keys, Hs.
  unfold note_channel. destruct (eval_call i) as [[[env c] p]|]; [|reflexivity].
  rewrite existsb_app. fold (is_valid_channel c).
  destruct (is_valid_channel c || existsb (String.eqb c) seen); [reflexivity|].
  symmetry. apply app_assoc.
Qed.

Lemma other_channels_none inputs :
  forallb eval_channel_valid inputs = true -> other_channels inputs = [].
Proof.
  unfold other_channels. induction inputs as [|i inputs IH]; simpl; [reflexivity|].
  intros H. apply andb_prop in H as [Hi Hrest].
  unfold note_channel at 2. unfold eval_channel_valid in Hi.
  destruct (eval_call i) as [[[env c] p]|]; [rewrite Hi|]; apply IH; exact Hrest.
Qed.

(** C7, amended: [getActive] returns exactly the records of the table that
    are active, in the order of the table's keys: d1..d9 first, then the
    identifiers outside d1..d9 that evaluate was called with, in the order
    of their first call. So in a session whose evaluate calls all name one
    of d1..d9 the listing is the active records looked up by identifier in
    the order d1..d9, whatever the order of the calls, and the identifiers
    it shows are the active ones among d1..d9 in that order. *)
Theorem active_channels_in_identifier_order cfg default_log env0 s0 inputs :
  run cfg env0 (constructor cfg default_log) = (Ok tt, s0) ->
  let s := exec cfg s0 inputs in
  JSMap.keys (channels s) = (valid_channels ++ other_channels inputs)%list /\
  getActive s = omap (active_record s) (valid_channels ++ other_channels inputs)%list /\
  (forall c, In c (getActive s) <-> In c (JSMap.values (channels s)) /\ active c = true) /\
  (forallb eval_channel_valid inputs = true ->
   JSMap.keys (channels s) = valid_channels /\
   getActive s = omap (active_record s) valid_channels /\
   map channel (getActive s) = List.filter (fun id => is_active id s) valid_channels).
Proof.
  intros Hboot. cbv zeta.
  pose proof (exec_table_ok cfg default_log env0 s0 inputs Hboot) as (Hnd & _ & Hrec).
  destruct (booted_store _ _ _ _ Hboot) as [Hc _].
  assert (Hkeys : JSMap.keys (channels (exec cfg s0 inputs)) =
                  (valid_channels ++ other_channels inputs)%list).
  { apply exec_keys. rewrite Hc, app_nil_r. apply initial_keys. }
  assert (Hact : getActive (exec cfg s0 inputs) =
                 omap (active_record (exec cfg s0 inputs))
                   (valid_channels ++ other_channels inputs)%list).
  { unfold getActive, active_record. rewrite active_values_by_key by exact Hnd.
    rewrite Hkeys. reflexivity. }
  split; [exact Hkeys|]. split; [exact Hact|]. split.
  - intros c. unfold getActive. apply filter_In.
  - intros Hvalid. rewrite (other_channels_none inputs Hvalid), app_nil_r in Hkeys, Hact.
    split; [exact Hkeys|]. split; [exact Hact|].
    unfold getActive. rewrite active_ids_by_key.
    + rewrite Hkeys. reflexivity.
    + exact Hnd.
    + intros k c Hin. apply (Hrec k c Hin).
Qed.

Lemma active_channels_in_identifier_order_witness :
  let s := exec Sample.file_cfg Sample.file_boot
             [Call Sample.env_ok (eval_request "d3" "s bd");
              Call (Sample.env_at 2000) (eval_request "d1" "s sn")] in
  map channel (getActive s) = ["d1"; "d3"].
Proof.
  cbv zeta.
  destruct (active_channels_in_identifier_order Sample.file_cfg Sample.log_path
              Sample.env_ok Sample.file_boot
              [Call Sample.env_ok (eval_request "d3" "s bd");
               Call (Sample.env_at 2000) (eval_request "d1" "s sn")])
    as (_ & _ & _ & H); [reflexivity|].
  destruct (H eq_refl) as (_ & _ & Hids).
  rewrite Hids. reflexivity.
Defined.

(** ** C4: a send that arrives during a reconnect *)

Lemma stdin_write_process env code s :
  spawned (snd (stdin_write env code s)) = spawned s /\
  isReconnecting (snd (stdin_write env code s)) = isReconnecting s.
Proof.
  unfold stdin_write.
  destruct (ghciProcess s) as [p|]; [|split; reflexivity].
  destruct (has_stdin p); [|split; reflexivity].
  destruct (stdin_destroyed p); [split; reflexivity|].
  destruct (stdin_write_error env); split; reflexivity.
Qed.

(** C4, as stated, fails: [startGhci] sets the liveness flag when it spawns,
    before it waits, so a send that arrives during the wait passes the
    health check and never looks at the guard. Here the interpreter has
    exited, a first send has respawned it and waits with the guard held;
    a hush arriving now is not refused: it writes to the new process and
    the caller is told of a success. *)
Lemma send_during_reconnect_writes :
  let s := Sample.ghci_reconnecting in
  isReconnecting s = true /\
  sendToGhci_enter Sample.ghci_cfg Sample.env_ok s = (Ok ReadyToWrite, s) /\
  fst (sendToGhci Sample.ghci_cfg Sample.env_ok "hush" s) = Ok tt /\
  effects (snd (sendToGhci Sample.ghci_cfg Sample.env_ok "hush" s)) =
    (effects s ++ [StdinWrite 1 ("hush" +:+ nl)])%list /\
  is_error (fst (handle Sample.ghci_cfg Sample.env_ok
                   (mkRequest "tidal_hush" (Some Sample.args_none)) s)) = false.
Proof. vm_compute. repeat split; reflexivity. Qed.

Lemma send_guard_held cfg env code s :
  isReconnecting s = true ->
  snd (sendToGhci_enter cfg env s) = s /\
  (isGhciHealthy s = false ->
   sendToGhci cfg env code s = (Thrown reconnecting_message, s)) /\
  (isGhciHealthy s = true ->
   fst (sendToGhci_enter cfg env s) = Ok ReadyToWrite /\
   sendToGhci cfg env code s = stdin_write env code s) /\
  spawned (snd (sendToGhci cfg env code s)) = spawned s /\
  isReconnecting (snd (sendToGhci cfg env code s)) = true.
Proof.
  intros Hguard. unfold sendToGhci, bind, sendToGhci_enter. rewrite Hguard.
  destruct (isGhciHealthy s); simpl.
  - split; [reflexivity|]. split; [discriminate|].
    split; [intros _; split; [reflexivity|];
            destruct (stdin_write env code s) as [[]]; reflexivity|].
    destruct (stdin_write_process env code s) as [Hs Hr].
    rewrite Hs, Hr. auto.
  - split; [reflexivity|]. split; [reflexivity|]. split; [discriminate|]. auto.
Qed.

Lemma on_event_process ev s :
  spawned (on_event ev s) = spawned s /\
  isReconnecting (on_event ev s) = isReconnecting s.
Proof. destruct ev; split; reflexivity. Qed.

(** Whatever arrives and whatever fires while the guard is held, nothing is
    spawned and the guard stays held. *)
Lemma overlap_guard_held cfg acts :
  forall s, isReconnecting s = true ->
    spawned (overlap cfg s acts) = spawned s /\
    isReconnecting (overlap cfg s acts) = true.
Proof.
  unfold overlap. induction acts as [|a acts IH]; intros s Hguard; [auto|].
  cbn [fold_left].
  assert (Hstep : spawned (during_wait cfg s a) = spawned s /\
                  isReconnecting (during_wait cfg s a) = true).
  { destruct a as [env code|ev]; simpl.
    - destruct (send_guard_held cfg env code s Hguard) as (_ & _ & _ & Hs & Hr). auto.
    - destruct (on_event_process ev s) as [Hs Hr]. rewrite Hs, Hr. auto. }
  destruct Hstep as [Hs Hr]. destruct (IH _ Hr) as [IHs IHr].
  rewrite IHs, Hs. auto.
Qed.

(** C4, amended: a send that arrives while the guard is held never spawns a
    process, never waits and leaves the guard held; so however many sends
    arrive and whatever listeners fire during one reconnect, no second
    process is spawned. A send arriving then is refused with the "currently
    reconnecting" error, on an untouched state, when the health check fails
    at that moment; when the health check passes it goes on to the
    write. *)
Theorem send_while_reconnecting cfg env code s :
  isReconnecting s = true ->
  (isGhciHealthy s = false ->
   sendToGhci cfg env code s = (Thrown reconnecting_message, s)) /\
  (isGhciHealthy s = true ->
   fst (sendToGhci_enter cfg env s) = Ok ReadyToWrite /\
   sendToGhci cfg env code s = stdin_write env code s) /\
  snd (sendToGhci_enter cfg env s) = s /\
  (forall acts,
     spawned (overlap cfg s acts) = spawned s /\
     isReconnecting (overlap cfg s acts) = true).
Proof.
  intros Hguard.
  destruct (send_guard_held cfg env code s Hguard) as (Hsame & Hdead & Hlive & _).
  split; [exact Hdead|]. split; [exact Hlive|]. split; [exact Hsame|].
  intros acts. apply overlap_guard_held. exact Hguard.
Qed.

Lemma send_while_reconnecting_witness :
  let s := on_event ProcExit Sample.ghci_reconnecting in
  isReconnecting s = true /\
  sendToGhci Sample.ghci_cfg Sample.env_ok "hush" s =
    (Thrown "GHCi is currently reconnecting, please try again in a moment", s).
Proof.
  cbv zeta. split; [reflexivity|].
  destruct (send_while_reconnecting Sample.ghci_cfg Sample.env_ok "hush"
              (on_event ProcExit Sample.ghci_reconnecting))
    as (H & _); [reflexivity|].
  apply H. reflexivity.
Defined.

(** ** The scenarios of the design document *)

(** Scenario A: an evaluate call shows in the state listing. *)
Example scenario_evaluate_then_state :
  let s := exec Sample.file_cfg Sample.file_boot
             [Call Sample.env_ok (eval_request "d1" "pattern-X")] in
  fst (handle Sample.file_cfg (Sample.env_at 4000)
         (mkRequest "tidal_get_state" (Some Sample.args_none)) s) =
  "Active channels:" +:+ nl +:+ "  d1: pattern-X (3s ago)".
Proof. reflexivity. Qed.

(** Scenario B: the history with limit 1 shows the later of two calls. *)
Example scenario_history_latest :
  let s := exec Sample.file_cfg Sample.file_boot
             [Call Sample.env_ok (eval_request "d1" "X");
              Call (Sample.env_at 2000) (eval_request "d1" "Y")] in
  fst (handle Sample.file_cfg (Sample.env_at 4000) (history_request (Some 1%Z)) s) =
  "Recent patterns:" +:+ nl +:+ "1. d1: Y (1s ago)".
Proof. reflexivity. Qed.

(** Scenario C: nothing is active after a hush. *)
Example scenario_hush_clears :
  let s := exec Sample.file_cfg Sample.file_boot
             [Call Sample.env_ok (eval_request "d2" "Z");
              Call (Sample.env_at 2000) (mkRequest "tidal_hush" (Some Sample.args_none))] in
  fst (handle Sample.file_cfg (Sample.env_at 4000)
         (mkRequest "tidal_get_state" (Some Sample.args_none)) s) =
  "No active patterns.".
Proof. reflexivity. Qed.

(** Scenario D: silencing a channel that never played is no error. *)
Example scenario_silence_idle_channel :
  let r := handle Sample.file_cfg Sample.env_ok (tool_request "tidal_silence" "d2")
             Sample.file_boot in
  fst r = "✓ Silenced d2." /\
  JSMap.get "d2" (channels (snd r)) = Some (mkChannelState "d2" "" 0 false).
Proof. split; reflexivity. Qed.

(** Unsolo after a solo of d3, in file mode: the file holds the fixed
    command. *)
Example scenario_unsolo_after_solo :
  let s := exec Sample.file_cfg Sample.file_boot
             [Call Sample.env_ok (tool_request "tidal_solo" "d3");
              Call (Sample.env_at 2000) (mkRequest "tidal_unsolo" (Some Sample.args_none))] in
  files s !! tidalFile Sample.file_cfg =
    Some (tidal_file_content "2025-01-01T00:00:00.000Z" "unsolo $ d1") /\
  channels s = channels Sample.file_boot.
Proof. split; reflexivity. Qed.

(** Over the pipe, a command is one line on the interpreter's stdin. *)
Example scenario_ghci_write :
  let r := handle Sample.ghci_cfg Sample.env_ok (eval_request "d1" "s bd")
             Sample.ghci_boot in
  effects (snd r) =
  (effects Sample.ghci_boot ++
   [FsAppend Sample.log_path
      ("2025-01-01T00:00:00.000Z" +:+ nl +:+
       "REQUEST: Evaluate pattern on d1" +:+ nl +:+
       "RESPONSE: d1 $ s bd" +:+ nl +:+ "---" +:+ nl +:+ nl);
    StdinWrite 0 ("d1 $ s bd" +:+ nl)])%list.
Proof. reflexivity. Qed.

(** A write error marks the stream dead, and the next send respawns. *)
Example scenario_write_error_then_reconnect :
  let r1 := handle Sample.ghci_cfg Sample.env_broken_pipe (eval_request "d1" "s bd")
              Sample.ghci_boot in
  let r2 := handle Sample.ghci_cfg Sample.env_ok (eval_request "d1" "s bd") (snd r1) in
  fst r1 = "Error: write EPIPE" /\
  ghciStreamAlive (snd r1) = false /\
  spawned (snd r1) = 1 /\
  is_error (fst r2) = false /\
  spawned (snd r2) = 2 /\
  isReconnecting (snd r2) = false.
Proof. vm_compute. repeat split; reflexivity. Qed.

(** * Further properties of the server *)

(** ** Lookups in the channel table *)

Lemma get_set {V} c (v : V) m k :
  JSMap.get k (JSMap.set c v m) = if String.eqb c k then Some v else JSMap.get k m.
Proof.
  induction m as [|[k0 v0] m IH]; simpl.
  - rewrite (String.eqb_sym k c). reflexivity.
  - destruct (String.eqb_spec c k0) as [->|Hne]; simpl.
    + rewrite (String.eqb_sym k0 k). destruct (String.eqb k k0); reflexivity.
    + destruct (String.eqb_spec k k0) as [->|Hne'].
      * destruct (String.eqb_spec c k0); [tauto|reflexivity].
      * exact IH.
Qed.

Lemma get_update {V} c (f : V -> V) m k :
  JSMap.get k (JSMap.update c f m) =
  if String.eqb c k then option_map f (JSMap.get k m) else JSMap.get k m.
Proof.
  induction m as [|[k0 v0] m IH]; simpl.
  - destruct (String.eqb c k); reflexivity.
  - destruct (String.eqb_spec c k0) as [->|Hne]; simpl.
    + rewrite (String.eqb_sym k0 k). destruct (String.eqb k k0); reflexivity.
    + destruct (String.eqb_spec k k0) as [->|Hne'].
      * destruct (String.eqb_spec c k0); [tauto|reflexivity].
      * exact IH.
Qed.

Lemma set_set {V} c (v1 v2 : V) m :
  JSMap.set c v2 (JSMap.set c v1 m) = JSMap.set c v2 m.
Proof.
  induction m as [|[k0 v0] m IH]; simpl.
  - rewrite String.eqb_refl. reflexivity.
  - destruct (String.eqb_spec c k0) as [->|Hne]; simpl.
    + rewrite String.eqb_refl. reflexivity.
    + destruct (String.eqb_spec c k0); [tauto|]. rewrite IH. reflexivity.
Qed.

Lemma in_set_self {V} c (v : V) m : In (c, v) (JSMap.set c v m).
Proof.
  induction m as [|[k0 v0] m IH]; simpl; [auto|].
  destruct (String.eqb c k0); simpl; auto.
Qed.

(** X1: After an evaluate call, from any state and whatever the sink did, a
    lookup of the channel gives the new record, every other lookup gives
    what it gave before, and the state listing contains the new record. *)
Theorem evaluate_is_listed cfg env c p s :
  let s' := snd (handle cfg env (eval_request c p) s) in
  let record := mkChannelState c p (Date_now env 0) true in
  (forall k, JSMap.get k (channels s') =
             if String.eqb c k then Some record else JSMap.get k (channels s)) /\
  In record (getActive s') /\
  is_active c s' = true.
Proof.
  cbv zeta.
  pose proof (step_channels cfg s (Call env (eval_request c p))) as H.
  simpl in H. rewrite snd_handle in *.
  assert (Hget : forall k,
            JSMap.get k (channels (snd (dispatch cfg env (eval_request c p) s))) =
            if String.eqb c k
            then Some (mkChannelState c p (Date_now env 0) true)
            else JSMap.get k (channels s)).
  { intros k. rewrite H. apply get_set. }
  split; [exact Hget|]. split.
  - unfold getActive. apply filter_In. split; [|reflexivity].
    rewrite H. unfold JSMap.values.
    apply (in_map snd _ (c, mkChannelState c p (Date_now env 0) true)).
    apply in_set_self.
  - unfold is_active. rewrite Hget, String.eqb_refl. reflexivity.
Qed.

(** X2: Evaluating a channel again replaces its record where it stands: the
    table is the one the second call alone would have given, with the same
    keys in the same order as after the first call, while the history
    keeps both calls. *)
Theorem evaluate_again_replaces cfg env1 env2 c p1 p2 s :
  let s1 := snd (handle cfg env1 (eval_request c p1) s) in
  let s2 := snd (handle cfg env2 (eval_request c p2) s1) in
  channels s2 = channels (snd (handle cfg env2 (eval_request c p2) s)) /\
  JSMap.keys (channels s2) = JSMap.keys (channels s1) /\
  patternHistory s2 =
    (patternHistory s ++ [mkHistoryEntry c p1 (Date_now env1 1);
                          mkHistoryEntry c p2 (Date_now env2 1)])%list.
Proof.
  cbv zeta.
  pose proof (step_channels cfg s (Call env1 (eval_request c p1))) as H1.
  pose proof (step_channels cfg (snd (handle cfg env1 (eval_request c p1) s))
                (Call env2 (eval_request c p2))) as H2.
  pose proof (step_channels cfg s (Call env2 (eval_request c p2))) as H3.
  pose proof (step_history cfg s (Call env1 (eval_request c p1))) as G1.
  pose proof (step_history cfg (snd (handle cfg env1 (eval_request c p1) s))
                (Call env2 (eval_request c p2))) as G2.
  simpl in H1, H2, H3, G1, G2.
  split; [rewrite H2, H1, H3; apply set_set|]. split.
  - rewrite H2. apply keys_set_in. rewrite H1.
    apply (in_keys c (mkChannelState c p1 (Date_now env1 0) true)), in_set_self.
  - rewrite G2, G1, <- app_assoc. reflexivity.
Qed.

(** X3: After a silence call, from any state and whatever the sink did, the
    record of the channel, when there is one, is the cleared record that
    keeps its timestamp; no record is created for a channel without one;
    the other records, the order of the keys and the history are as
    before. *)
Theorem silence_clears_one_channel cfg env a s :
  let c := arg_channel a in
  let s' := snd (handle cfg env (mkRequest "tidal_silence" (Some a)) s) in
  (forall k, JSMap.get k (channels s') =
             if String.eqb c k
             then option_map (fun r => mkChannelState (channel r) "" (timestamp r) false)
                    (JSMap.get k (channels s))
             else JSMap.get k (channels s)) /\
  JSMap.keys (channels s') = JSMap.keys (channels s) /\
  patternHistory s' = patternHistory s.
Proof.
  cbv zeta.
  pose proof (step_channels cfg s (Call env (mkRequest "tidal_silence" (Some a)))) as H.
  pose proof (step_history cfg s (Call env (mkRequest "tidal_silence" (Some a)))) as G.
  simpl in H, G. rewrite app_nil_r in G.
  split; [|split; [rewrite H; apply keys_update | exact G]].
  intros k. rewrite H. apply (get_update (arg_channel a) clear_state).
Qed.

(** X4: After a hush, from any state and whatever the sink did, no channel is
    active, and the state query answers "No active patterns.". *)
Theorem hush_then_nothing_active cfg env env' a s :
  let s' := snd (handle cfg env (mkRequest "tidal_hush" (Some a)) s) in
  getActive s' = [] /\
  getState env' s' = (Ok "No active patterns.", s').
Proof.
  cbv zeta.
  pose proof (step_channels cfg s (Call env (mkRequest "tidal_hush" (Some a)))) as H.
  simpl in H.
  assert (Hnone : getActive (snd (handle cfg env (mkRequest "tidal_hush" (Some a)) s)) = []).
  { unfold getActive. rewrite H. unfold JSMap.values. clear H.
    induction (channels s) as [|[k r] m IH]; simpl; [reflexivity|exact IH]. }
  split; [exact Hnone|]. unfold getState. rewrite Hnone. reflexivity.
Qed.

(** ** Silence and hush in a session *)

Lemma filter_all {A} (f : A -> bool) l :
  (forall x, In x l -> f x = true) -> List.filter f l = l.
Proof.
  induction l as [|x l IH]; simpl; intros H; [reflexivity|].
  rewrite (H x) by auto. f_equal. apply IH. auto.
Qed.

Lemma silence_listing (m : JSMap.t ChannelState) c :
  List.NoDup (JSMap.keys m) ->
  (forall k r, In (k, r) m -> channel r = k) ->
  List.filter active (JSMap.values (JSMap.update c clear_state m)) =
  List.filter (fun r => negb (String.eqb (channel r) c))
    (List.filter active (JSMap.values m)).
Proof.
  induction m as [|[k r] m IH]; intros Hnd Hch; [reflexivity|].
  inversion Hnd as [|? ? Hnin Hnd']; subst.
  assert (Hk : channel r = k) by (apply Hch; left; reflexivity).
  assert (Hch' : forall k0 r0, In (k0, r0) m -> channel r0 = k0)
    by (intros k0 r0 Hin; apply Hch; right; exact Hin).
  simpl. destruct (String.eqb_spec c k) as [->|Hne]; simpl.
  - assert (Hrest : List.filter (fun r0 => negb (String.eqb (channel r0) k))
                      (List.filter active (map snd m)) =
                    List.filter active (map snd m)).
    { apply filter_all. intros x Hx. apply filter_In in Hx as [Hx _].
      apply in_map_iff in Hx as ([k0 r0] & <- & Hin). simpl.
      rewrite (Hch' k0 r0 Hin). destruct (String.eqb_spec k0 k) as [->|_]; [|reflexivity].
      exfalso. apply Hnin. apply (in_keys k r0 m Hin). }
    destruct (active r); simpl; [|symmetry; exact Hrest].
    rewrite Hk, String.eqb_refl. simpl. symmetry. exact Hrest.
  - specialize (IH Hnd' Hch'). unfold JSMap.values in IH.
    destruct (active r); simpl; [|exact IH].
    rewrite Hk. destruct (String.eqb_spec k c) as [->|_]; [tauto|].
    simpl. f_equal. exact IH.
Qed.

(** X5: In a session, silencing a channel removes its record from the state
    listing and leaves the rest of the listing, and its order, as it
    was. *)
Theorem silence_removes_from_listing cfg default_log env0 s0 inputs env a :
  run cfg env0 (constructor cfg default_log) = (Ok tt, s0) ->
  let s := exec cfg s0 inputs in
  let s' := snd (handle cfg env (mkRequest "tidal_silence" (Some a)) s) in
  getActive s' =
    List.filter (fun r => negb (String.eqb (channel r) (arg_channel a))) (getActive s).
Proof.
  intros Hboot. cbv zeta.
  pose proof (exec_table_ok cfg default_log env0 s0 inputs Hboot) as (Hnd & _ & Hrec).
  pose proof (step_channels cfg (exec cfg s0 inputs)
                (Call env (mkRequest "tidal_silence" (Some a)))) as H.
  simpl in H. unfold getActive. rewrite H.
  apply silence_listing; [exact Hnd|].
  intros k r Hin. apply (Hrec k r Hin).
Qed.

Lemma silence_removes_from_listing_witness :
  let s := exec Sample.file_cfg Sample.file_boot
             [Call Sample.env_ok (eval_request "d1" "s bd");
              Call (Sample.env_at 2000) (eval_request "d2" "s sn");
              Call (Sample.env_at 3000) (eval_request "d3" "s hh")] in
  map channel
    (getActive (snd (handle Sample.file_cfg (Sample.env_at 4000)
                       (tool_request "tidal_silence" "d2") s))) = ["d1"; "d3"].
Proof.
  cbv zeta. unfold tool_request.
  rewrite (silence_removes_from_listing Sample.file_cfg Sample.log_path Sample.env_ok
             Sample.file_boot
             [Call Sample.env_ok (eval_request "d1" "s bd");
              Call (Sample.env_at 2000) (eval_request "d2" "s sn");
              Call (Sample.env_at 3000) (eval_request "d3" "s hh")]
             (Sample.env_at 4000) (mkArgs "d2" "" None) eq_refl).
  reflexivity.
Defined.

Lemma exec_channels cfg inputs :
  forall s, channels (exec cfg s inputs) =
            fold_left (fun m i => store_effect i m) inputs (channels s).
Proof.
  induction inputs as [|i inputs IH]; intros s; [reflexivity|].
  change (exec cfg s (i :: inputs)) with (exec cfg (step cfg s i) inputs).
  rewrite IH, step_channels. reflexivity.
Qed.

Lemma update_cons_other {V} k0 (v0 : V) (f : V -> V) ks m :
  ~ In k0 ks ->
  fold_left (fun acc k => JSMap.update k f acc) ks ((k0, v0) :: m) =
  (k0, v0) :: fold_left (fun acc k => JSMap.update k f acc) ks m.
Proof.
  revert m. induction ks as [|k ks IH]; intros m Hnin; [reflexivity|].
  simpl. destruct (String.eqb_spec k k0) as [->|Hne]; [simpl in Hnin; tauto|].
  apply IH. simpl in Hnin. tauto.
Qed.

Lemma update_every_key (m : JSMap.t ChannelState) :
  List.NoDup (JSMap.keys m) ->
  fold_left (fun acc k => JSMap.update k clear_state acc) (JSMap.keys m) m =
  map (fun kv => (fst kv, clear_state (snd kv))) m.
Proof.
  induction m as [|[k r] m IH]; intros Hnd; [reflexivity|].
  inversion Hnd as [|? ? Hnin Hnd']; subst.
  simpl. rewrite String.eqb_refl.
  rewrite update_cons_other by exact Hnin. f_equal. apply IH. exact Hnd'.
Qed.

(** X6: In a session, a hush leaves the channel table as silencing every
    channel of the table, one call after the other, leaves it. *)
Theorem hush_is_silence_of_every_channel cfg default_log env0 s0 inputs env a
  (envs : string -> Env) :
  run cfg env0 (constructor cfg default_log) = (Ok tt, s0) ->
  let s := exec cfg s0 inputs in
  channels (snd (handle cfg env (mkRequest "tidal_hush" (Some a)) s)) =
  channels (exec cfg s
              (map (fun k => Call (envs k) (tool_request "tidal_silence" k))
                 (JSMap.keys (channels s)))).
Proof.
  intros Hboot. cbv zeta.
  pose proof (exec_table_ok cfg default_log env0 s0 inputs Hboot) as (Hnd & _ & _).
  pose proof (step_channels cfg (exec cfg s0 inputs)
                (Call env (mkRequest "tidal_hush" (Some a)))) as H.
  simpl in H. remember (exec cfg s0 inputs) as s eqn:Es. clear Es Hboot.
  rewrite H, exec_channels, <- (update_every_key _ Hnd).
  generalize (channels s) at 2 4 as m. clear H Hnd.
  generalize (JSMap.keys (channels s)) as ks.
  induction ks as [|k ks IH]; intros m; [reflexivity|].
  simpl. apply IH.
Qed.

Lemma hush_is_silence_of_every_channel_witness :
  let s := exec Sample.file_cfg Sample.file_boot
             [Call Sample.env_ok (eval_request "d1" "s bd");
              Call (Sample.env_at 2000) (eval_request "d10" "s sn")] in
  channels (snd (handle Sample.file_cfg (Sample.env_at 3000)
                   (mkRequest "tidal_hush" (Some Sample.args_none)) s)) =
  channels (exec Sample.file_cfg s
              (map (fun k => Call (Sample.env_at 4000) (tool_request "tidal_silence" k))
                 (JSMap.keys (channels s)))).
Proof.
  cbv zeta.
  apply (hush_is_silence_of_every_channel Sample.file_cfg Sample.log_path Sample.env_ok
           Sample.file_boot
           [Call Sample.env_ok (eval_request "d1" "s bd");
            Call (Sample.env_at 2000) (eval_request "d10" "s sn")]
           (Sample.env_at 3000) Sample.args_none (fun _ => Sample.env_at 4000)).
  reflexivity.
Defined.

(** ** The commands of hush, silence and solo *)

(** A tool that logs an action, changes the store in memory and submits one
    command writes that command once, or not at all when the sink throws. *)
Lemma logged_command_writes cfg env action details (f : State -> State) code
  (text : string) s :
  (forall s0, effects (f s0) = effects s0) ->
  let m := logAction env action details ;;; lift f ;;; submit cfg env code ;;; ret text in
  writes (written (fst (m s)) (sink_text cfg env code)) s (snd (m s)).
Proof.
  intros Hf. cbv zeta.
  pose proof (logAction_silent env action details s) as Hl.
  pose proof (submit_writes cfg env code (f (snd (logAction env action details s)))) as Hs.
  change ((logAction env action details ;;; lift f ;;; submit cfg env code ;;; ret text) s)
    with (match submit cfg env code (f (snd (logAction env action details s))) with
          | (Ok _, s3) => (Ok text, s3)
          | (Thrown e, s3) => (@Thrown string e, s3)
          end).
  destruct (submit cfg env code (f (snd (logAction env action details s))))
    as [[u|e] s3]; simpl in *;
    refine (writes_trans [] _ _ _ _ _ Hs);
    (eapply writes_same_effects; [|exact Hl]); apply Hf.
Qed.

Lemma logged_command_reply cfg env action details (f : State -> State) code
  (text : string) s :
  (logAction env action details ;;; lift f ;;; submit cfg env code ;;; ret text) s =
  reply text (submit cfg env code (f (snd (logAction env action details s)))).
Proof. reflexivity. Qed.

(** What a tool that logs, changes the store and submits [code] does with
    the sink: it answers as the sink did, the sink's one write is the only
    one, with a writable output file in file mode it returns and the file
    holds the header and [code], and with a healthy interpreter and a pipe
    that takes the write in GHCi mode it returns and the line is written. *)
Lemma logged_command_sink cfg env action details (f : State -> State) code
  (text : string) s :
  (forall s0, effects (f s0) = effects s0) ->
  (forall s0, isGhciHealthy (f s0) = isGhciHealthy s0) ->
  let s2 := f (snd (logAction env action details s)) in
  let r := (logAction env action details ;;; lift f ;;; submit cfg env code ;;; ret text) s in
  r = reply text (submit cfg env code s2) /\
  writes (written (fst (submit cfg env code s2)) (sink_text cfg env code)) s (snd r) /\
  (useGhci cfg = false -> writeFile_error env = None ->
   fst r = Ok text /\
   files (snd r) !! tidalFile cfg = Some (tidal_file_content (toISOString env 1) code)) /\
  (useGhci cfg = true -> isGhciHealthy s = true -> stdin_write_error env = None ->
   fst r = Ok text /\ writes [code +:+ nl] s (snd r)).
Proof.
  intros Hf Hhealth. cbv zeta.
  pose proof (logged_command_writes cfg env action details f code text s Hf) as Hw.
  cbv zeta in Hw. rewrite logged_command_reply in *.
  split; [reflexivity|]. split.
  - rewrite fst_reply in Hw.
    destruct (fst (submit cfg env code (f (snd (logAction env action details s)))));
      exact Hw.
  - split.
    + intros Hfile Hok.
      destruct (writeToTidalFile_ok cfg env code
                  (f (snd (logAction env action details s))) Hfile Hok)
        as [Hret Hcontent].
      split; [rewrite fst_reply, Hret; reflexivity|].
      rewrite snd_reply. exact Hcontent.
    + intros Hg Hh Hpipe.
      destruct (logAction_interpreter env action details s) as [_ Hl].
      destruct (sendToGhci_healthy_ok cfg env code
                  (f (snd (logAction env action details s))))
        as (p & _ & Hsend); [rewrite Hhealth; congruence | exact Hpipe |].
      assert (Hsub : fst (submit cfg env code (f (snd (logAction env action details s))))
                     = Ok tt)
        by (unfold submit; rewrite Hg, Hsend; reflexivity).
      rewrite fst_reply, Hsub in Hw |- *.
      split; [reflexivity|].
      unfold written, sink_text in Hw. rewrite Hg in Hw. exact Hw.
Qed.

(** X7: Hush, silence and solo log, hush and silence change the store, and
    each then hands the sink one command, "hush", "silence <channel>" and
    "solo $ <channel>" for any channel text, and answers as the sink did:
    its confirmation when the sink returned, the sink's error when it
    threw. The command is the only text the sink is given: one write of it
    when the sink returns, none when it throws. With a writable output file
    in file mode each of the three returns and leaves the file with the
    header and its command; with a healthy interpreter and a pipe that
    takes the write in GHCi mode each returns and its one write is the line
    of its command. Solo leaves the channel table and the history as they
    were. *)
Theorem commands_of_hush_silence_solo cfg env a s :
  let c := arg_channel a in
  let r_hush := dispatch cfg env (mkRequest "tidal_hush" (Some a)) s in
  let r_silence := dispatch cfg env (mkRequest "tidal_silence" (Some a)) s in
  let r_solo := dispatch cfg env (mkRequest "tidal_solo" (Some a)) s in
  let s_hush := hush_update (snd (logAction env "HUSH" (Some "Stopped all patterns") s)) in
  let s_silence :=
    silence_update c (snd (logAction env "SILENCE" (Some ("Silenced channel " +:+ c)) s)) in
  let s_solo := snd (logAction env "SOLO" (Some ("Soloed channel " +:+ c)) s) in
  let iso := toISOString env 1 in
  (r_hush = reply "✓ All patterns stopped (hushed)." (submit cfg env "hush" s_hush) /\
   writes (written (fst (submit cfg env "hush" s_hush)) (sink_text cfg env "hush"))
     s (snd r_hush)) /\
  (r_silence =
     reply ("✓ Silenced " +:+ c +:+ ".") (submit cfg env ("silence " +:+ c) s_silence) /\
   writes (written (fst (submit cfg env ("silence " +:+ c) s_silence))
             (sink_text cfg env ("silence " +:+ c)))
     s (snd r_silence)) /\
  (r_solo =
     reply ("✓ Soloed " +:+ c +:+ ". All other channels are muted.")
       (submit cfg env ("solo $ " +:+ c) s_solo) /\
   writes (written (fst (submit cfg env ("solo $ " +:+ c) s_solo))
             (sink_text cfg env ("solo $ " +:+ c)))
     s (snd r_solo) /\
   same_store s (snd r_solo)) /\
  (useGhci cfg = false -> writeFile_error env = None ->
   (fst r_hush = Ok "✓ All patterns stopped (hushed)." /\
    files (snd r_hush) !! tidalFile cfg = Some (tidal_file_content iso "hush")) /\
   (fst r_silence = Ok ("✓ Silenced " +:+ c +:+ ".") /\
    files (snd r_silence) !! tidalFile cfg =
      Some (tidal_file_content iso ("silence " +:+ c))) /\
   (fst r_solo = Ok ("✓ Soloed " +:+ c +:+ ". All other channels are muted.") /\
    files (snd r_solo) !! tidalFile cfg =
      Some (tidal_file_content iso ("solo $ " +:+ c)))) /\
  (useGhci cfg = true -> isGhciHealthy s = true -> stdin_write_error env = None ->
   (fst r_hush = Ok "✓ All patterns stopped (hushed)." /\
    writes ["hush" +:+ nl] s (snd r_hush)) /\
   (fst r_silence = Ok ("✓ Silenced " +:+ c +:+ ".") /\
    writes [("silence " +:+ c) +:+ nl] s (snd r_silence)) /\
   (fst r_solo = Ok ("✓ Soloed " +:+ c +:+ ". All other channels are muted.") /\
    writes [("solo $ " +:+ c) +:+ nl] s (snd r_solo))).
Proof.
  cbv zeta.
  destruct (logged_command_sink cfg env "HUSH" (Some "Stopped all patterns")
              hush_update "hush" "✓ All patterns stopped (hushed)." s)
    as (Hh1 & Hh2 & Hh3 & Hh4); [reflexivity|reflexivity|].
  destruct (logged_command_sink cfg env "SILENCE"
              (Some ("Silenced channel " +:+ arg_channel a))
              (silence_update (arg_channel a)) ("silence " +:+ arg_channel a)
              ("✓ Silenced " +:+ arg_channel a +:+ ".") s)
    as (Hs1 & Hs2 & Hs3 & Hs4); [reflexivity|reflexivity|].
  destruct (logged_command_sink cfg env "SOLO"
              (Some ("Soloed channel " +:+ arg_channel a))
              (fun s0 => s0) ("solo $ " +:+ arg_channel a)
              ("✓ Soloed " +:+ arg_channel a +:+ ". All other channels are muted.") s)
    as (Ho1 & Ho2 & Ho3 & Ho4); [reflexivity|reflexivity|].
  split; [split; [exact Hh1 | exact Hh2]|].
  split; [split; [exact Hs1 | exact Hs2]|].
  split; [split; [exact Ho1 | split; [exact Ho2|]]|].
  - apply (solo_store cfg env (arg_channel a) s).
  - split.
    + intros Hf Hw. split; [exact (Hh3 Hf Hw)|].
      split; [exact (Hs3 Hf Hw) | exact (Ho3 Hf Hw)].
    + intros Hg Hh Hw. split; [exact (Hh4 Hg Hh Hw)|].
      split; [exact (Hs4 Hg Hh Hw) | exact (Ho4 Hg Hh Hw)].
Qed.

Lemma commands_of_hush_silence_solo_witness :
  let a := mkArgs "d2" "" None in
  let r_hush := dispatch Sample.file_cfg Sample.env_ok
                  (mkRequest "tidal_hush" (Some a)) Sample.file_boot in
  let r_silence := dispatch Sample.file_cfg Sample.env_ok
                     (mkRequest "tidal_silence" (Some a)) Sample.file_boot in
  let r_solo := dispatch Sample.file_cfg Sample.env_ok
                  (mkRequest "tidal_solo" (Some a)) Sample.file_boot in
  files (snd r_hush) !! tidalFile Sample.file_cfg =
    Some (tidal_file_content "2025-01-01T00:00:00.000Z" "hush") /\
  files (snd r_silence) !! tidalFile Sample.file_cfg =
    Some (tidal_file_content "2025-01-01T00:00:00.000Z" "silence d2") /\
  fst r_solo = Ok "✓ Soloed d2. All other channels are muted." /\
  files (snd r_solo) !! tidalFile Sample.file_cfg =
    Some (tidal_file_content "2025-01-01T00:00:00.000Z" "solo $ d2") /\
  writes ["silence d2" +:+ nl] Sample.ghci_boot
    (snd (dispatch Sample.ghci_cfg Sample.env_ok
            (mkRequest "tidal_silence" (Some a)) Sample.ghci_boot)).
Proof.
  cbv zeta.
  destruct (commands_of_hush_silence_solo Sample.file_cfg Sample.env_ok
              (mkArgs "d2" "" None) Sample.file_boot) as (_ & _ & _ & Hfile & _).
  destruct (Hfile eq_refl eq_refl) as ((_ & Hh) & (_ & Hs) & (Ho & Hoc)).
  destruct (commands_of_hush_silence_solo Sample.ghci_cfg Sample.env_ok
              (mkArgs "d2" "" None) Sample.ghci_boot) as (_ & _ & _ & _ & Hpipe).
  destruct (Hpipe eq_refl eq_refl eq_refl) as (_ & (_ & Hline) & _).
  split; [exact Hh|]. split; [exact Hs|]. split; [exact Ho|].
  split; [exact Hoc | exact Hline].
Defined.

(** ** The store does not depend on the sink *)

(** X8: The channel table and the history after a tool call are determined by
    the table and the history before, the request and the two clock
    readings: the sink mode, the outcome of the sink and of the log, the
    state of the interpreter and the files play no part. *)
Theorem store_independent_of_sink cfg1 cfg2 env1 env2 req s1 s2 :
  channels s1 = channels s2 ->
  patternHistory s1 = patternHistory s2 ->
  Date_now env1 0 = Date_now env2 0 ->
  Date_now env1 1 = Date_now env2 1 ->
  channels (snd (handle cfg1 env1 req s1)) = channels (snd (handle cfg2 env2 req s2)) /\
  patternHistory (snd (handle cfg1 env1 req s1)) =
    patternHistory (snd (handle cfg2 env2 req s2)).
Proof.
  intros Hc Hh H0 H1.
  pose proof (step_channels cfg1 s1 (Call env1 req)) as C1.
  pose proof (step_channels cfg2 s2 (Call env2 req)) as C2.
  pose proof (step_history cfg1 s1 (Call env1 req)) as G1.
  pose proof (step_history cfg2 s2 (Call env2 req)) as G2.
  cbn [step] in C1, C2, G1, G2. rewrite C1, C2, G1, G2, Hc, Hh.
  split.
  - unfold store_effect. rewrite H0. reflexivity.
  - f_equal. unfold appended. simpl.
    destruct (String.eqb (name req) "tidal_eval"); [|reflexivity].
    destruct (arguments req); [|reflexivity]. simpl. rewrite H1. reflexivity.
Qed.

Lemma store_independent_of_sink_witness :
  let req := eval_request "d1" "s bd" in
  channels (snd (handle Sample.file_cfg Sample.env_ok req Sample.file_boot)) =
  channels (snd (handle Sample.ghci_cfg Sample.env_broken_pipe req Sample.ghci_dead)).
Proof.
  cbv zeta.
  apply (store_independent_of_sink Sample.file_cfg Sample.ghci_cfg Sample.env_ok
           Sample.env_broken_pipe (eval_request "d1" "s bd") Sample.file_boot
           Sample.ghci_dead);
    reflexivity.
Defined.

(** ** Responses *)

Lemma ok_after_submit cfg env code s (text t : string) :
  fst (match submit cfg env code s with
       | (Ok _, s3) => (Ok text, s3)
       | (Thrown e, s3) => (Thrown e, s3)
       end) = Ok t -> t = text.
Proof.
  destruct (submit cfg env code s) as [[u|e] s3]; simpl; congruence.
Qed.

Lemma solo_unfold cfg env c s :
  solo cfg env c s =
  let s1 := snd (logAction env "SOLO" (Some ("Soloed channel " +:+ c)) s) in
  match submit cfg env ("solo $ " +:+ c) s1 with
  | (Ok _, s3) => (Ok ("✓ Soloed " +:+ c +:+ ". All other channels are muted."), s3)
  | (Thrown e, s3) => (Thrown e, s3)
  end.
Proof. reflexivity. Qed.

(** The text of a tool that returned does not read as an error. *)
Lemma returned_text_is_no_error cfg env req s t :
  fst (dispatch cfg env req s) = Ok t -> is_error t = false.
Proof.
  unfold dispatch. destruct (arguments req) as [a|]; [|discriminate].
  destruct (String.eqb (name req) "tidal_eval").
  { rewrite evalPattern_unfold. cbv zeta. intros H.
    apply ok_after_submit in H. subst t. reflexivity. }
  destruct (String.eqb (name req) "tidal_hush").
  { rewrite hush_unfold. cbv zeta. intros H.
    apply ok_after_submit in H. subst t. reflexivity. }
  destruct (String.eqb (name req) "tidal_silence").
  { rewrite silence_unfold. cbv zeta. intros H.
    apply ok_after_submit in H. subst t. reflexivity. }
  destruct (String.eqb (name req) "tidal_get_state").
  { unfold getState. cbn [fst]. intros H. injection H as <-.
    destruct (0 <? _)%nat; reflexivity. }
  destruct (String.eqb (name req) "tidal_solo").
  { rewrite solo_unfold. cbv zeta. intros H.
    apply ok_after_submit in H. subst t. reflexivity. }
  destruct (String.eqb (name req) "tidal_unsolo").
  { rewrite unsolo_unfold. cbv zeta. intros H.
    apply ok_after_submit in H. subst t. reflexivity. }
  destruct (String.eqb (name req) "tidal_get_history"); [|discriminate].
  unfold getHistory. destruct (_ =? _)%nat; cbn [fst]; intros H; injection H as <-;
    reflexivity.
Qed.

(** X9: The response of the handler starts with "Error: " exactly when the tool
    threw: no text a tool returns can be taken for a failure, and every
    failure is reported as one. *)
Theorem response_is_error_iff_thrown cfg env req s :
  is_error (fst (handle cfg env req s)) = threw (fst (dispatch cfg env req s)).
Proof.
  unfold handle.
  pose proof (returned_text_is_no_error cfg env req s) as H.
  destruct (dispatch cfg env req s) as [[t|e] s']; simpl in *.
  - apply H. reflexivity.
  - destruct e; reflexivity.
Qed.

Lemma submit_file_ok cfg env code s :
  useGhci cfg = false -> writeFile_error env = None ->
  exists s', submit cfg env code s = (Ok tt, s').
Proof.
  intros Hf Hw. unfold submit, writeToTidalFile, fs_writeFile. rewrite Hf, Hw. eauto.
Qed.

Lemma file_mode_returns cfg env n a s :
  useGhci cfg = false -> writeFile_error env = None ->
  In n (map tool_name listTools) ->
  exists t, fst (dispatch cfg env (mkRequest n (Some a)) s) = Ok t.
Proof.
  intros Hf Hw Hin. simpl in Hin.
  destruct Hin as [<-|[<-|[<-|[<-|[<-|[<-|[<-|[]]]]]]]].
  - change (dispatch cfg env (mkRequest "tidal_eval" (Some a)) s)
      with (evalPattern cfg env (arg_channel a) (arg_pattern a) s).
    rewrite evalPattern_unfold. cbv zeta.
    destruct (submit_file_ok cfg env (arg_channel a +:+ " $ " +:+ arg_pattern a)
                (evalPattern_update env (arg_channel a) (arg_pattern a)
                   (snd (logPatternEvaluation env
                           ("Evaluate pattern on " +:+ arg_channel a)
                           (arg_channel a) (arg_pattern a) s))) Hf Hw) as [s' ->].
    eauto.
  - change (dispatch cfg env (mkRequest "tidal_hush" (Some a)) s) with (hush cfg env s).
    rewrite hush_unfold. cbv zeta.
    destruct (submit_file_ok cfg env "hush"
                (hush_update (snd (logAction env "HUSH" (Some "Stopped all patterns") s)))
                Hf Hw) as [s' ->].
    eauto.
  - change (dispatch cfg env (mkRequest "tidal_silence" (Some a)) s)
      with (silence cfg env (arg_channel a) s).
    rewrite silence_unfold. cbv zeta.
    destruct (submit_file_ok cfg env ("silence " +:+ arg_channel a)
                (silence_update (arg_channel a)
                   (snd (logAction env "SILENCE"
                           (Some ("Silenced channel " +:+ arg_channel a)) s)))
                Hf Hw) as [s' ->].
    eauto.
  - eexists. reflexivity.
  - change (dispatch cfg env (mkRequest "tidal_solo" (Some a)) s)
      with (solo cfg env (arg_channel a) s).
    rewrite solo_unfold. cbv zeta.
    destruct (submit_file_ok cfg env ("solo $ " +:+ arg_channel a)
                (snd (logAction env "SOLO"
                        (Some ("Soloed channel " +:+ arg_channel a)) s))
                Hf Hw) as [s' ->].
    eauto.
  - change (dispatch cfg env (mkRequest "tidal_unsolo" (Some a)) s)
      with (unsolo cfg env s).
    rewrite unsolo_unfold. cbv zeta.
    destruct (submit_file_ok cfg env "unsolo $ d1"
                (snd (logAction env "UNSOLO" (Some "Restored all channels") s))
                Hf Hw) as [s' ->].
    eauto.
  - change (dispatch cfg env (mkRequest "tidal_get_history" (Some a)) s)
      with (getHistory env (arg_limit a) s).
    unfold getHistory. destruct (_ =? _)%nat; eauto.
Qed.

(** X10: The names the server advertises are the names it handles. A call of
    any other name, with an arguments object, is answered
    "Error: Unknown tool: <name>" on an untouched state. A call of an
    advertised name, in file mode on a host that accepts the write of the
    output file, is answered without an error whatever its arguments are
    and whether or not the session log can be written. *)
Theorem advertised_tools_are_handled cfg env n a s :
  (~ In n (map tool_name listTools) ->
   handle cfg env (mkRequest n (Some a)) s = ("Error: Unknown tool: " +:+ n, s)) /\
  (In n (map tool_name listTools) ->
   useGhci cfg = false -> writeFile_error env = None ->
   is_error (fst (handle cfg env (mkRequest n (Some a)) s)) = false).
Proof.
  split.
  - intros Hnin. simpl in Hnin. unfold handle, dispatch. cbn [name arguments].
    destruct (String.eqb_spec n "tidal_eval") as [->|_]; [tauto|].
    destruct (String.eqb_spec n "tidal_hush") as [->|_]; [tauto|].
    destruct (String.eqb_spec n "tidal_silence") as [->|_]; [tauto|].
    destruct (String.eqb_spec n "tidal_get_state") as [->|_]; [tauto|].
    destruct (String.eqb_spec n "tidal_solo") as [->|_]; [tauto|].
    destruct (String.eqb_spec n "tidal_unsolo") as [->|_]; [tauto|].
    destruct (String.eqb_spec n "tidal_get_history") as [->|_]; [tauto|].
    reflexivity.
  - intros Hin Hf Hw.
    destruct (file_mode_returns cfg env n a s Hf Hw Hin) as [t Ht].
    pose proof (returned_text_is_no_error cfg env (mkRequest n (Some a)) s t Ht) as Hno.
    unfold handle.
    destruct (dispatch cfg env (mkRequest n (Some a)) s) as [[t'|e] s'];
      simpl in *; [|discriminate].
    injection Ht as ->. exact Hno.
Qed.

Lemma advertised_tools_are_handled_witness :
  handle Sample.file_cfg Sample.env_ok
    (mkRequest "tidal_mute" (Some Sample.args_none)) Sample.file_boot =
    ("Error: Unknown tool: tidal_mute", Sample.file_boot) /\
  is_error (fst (handle Sample.file_cfg Sample.env_ok
                   (mkRequest "tidal_solo" (Some (mkArgs "d99" "" None)))
                   Sample.file_boot)) = false.
Proof.
  split.
  - apply (advertised_tools_are_handled Sample.file_cfg Sample.env_ok "tidal_mute"
             Sample.args_none Sample.file_boot).
    simpl. intuition discriminate.
  - apply (advertised_tools_are_handled Sample.file_cfg Sample.env_ok "tidal_solo"
             (mkArgs "d99" "" None) Sample.file_boot);
      [simpl; tauto | reflexivity | reflexivity].
Defined.

(** ** Properties kept by every tool *)

(** A relation between the state before and the state after that is kept
    by an append to the session log, by an update of the store and by the
    sink, is kept by every tool call, and with the listeners by every
    session. *)
Section ToolFrames.
Context (R : State -> State -> Prop) (cfg : TidalConfig).
Hypothesis R_refl : forall s, R s s.
Hypothesis R_trans : forall s1 s2 s3, R s1 s2 -> R s2 s3 -> R s1 s3.
Hypothesis R_log : forall env text s, R s (snd (fs_appendFile env (logFile s) text s)).
Hypothesis R_channels : forall v s, R s (set_channels v s).
Hypothesis R_history : forall v s, R s (set_patternHistory v s).
Hypothesis R_submit : forall env code, frame R (submit cfg env code).

Lemma tool_bind {A B} (m : M A) (k : A -> M B) :
  frame R m -> (forall a, frame R (k a)) -> frame R (bind m k).
Proof. apply frame_bind, R_trans. Qed.

Lemma tool_ret {A} (a : A) : frame R (ret a).
Proof. apply frame_ret, R_refl. Qed.

Lemma logAction_frame env action details : frame R (logAction env action details).
Proof. intros s. apply R_log. Qed.

Lemma dispatch_frame env req : frame R (dispatch cfg env req).
Proof.
  unfold dispatch. destruct (arguments req) as [a|]; [|intros s; apply R_refl].
  destruct (String.eqb (name req) "tidal_eval").
  { unfold evalPattern. apply tool_bind; [intros s; apply R_log|intros _].
    apply tool_bind; [|intros _].
    - intros s. unfold lift, evalPattern_update. cbn [snd].
      eapply R_trans; [apply R_channels | apply R_history].
    - apply tool_bind; [apply R_submit | intros _; apply tool_ret]. }
  destruct (String.eqb (name req) "tidal_hush").
  { unfold hush. apply tool_bind; [apply logAction_frame|intros _].
    apply tool_bind; [intros s; apply R_channels|intros _].
    apply tool_bind; [apply R_submit | intros _; apply tool_ret]. }
  destruct (String.eqb (name req) "tidal_silence").
  { unfold silence. apply tool_bind; [apply logAction_frame|intros _].
    apply tool_bind; [intros s; apply R_channels|intros _].
    apply tool_bind; [apply R_submit | intros _; apply tool_ret]. }
  destruct (String.eqb (name req) "tidal_get_state"); [intros s; apply R_refl|].
  destruct (String.eqb (name req) "tidal_solo").
  { unfold solo. apply tool_bind; [apply logAction_frame|intros _].
    apply tool_bind; [apply R_submit | intros _; apply tool_ret]. }
  destruct (String.eqb (name req) "tidal_unsolo").
  { unfold unsolo. apply tool_bind; [apply logAction_frame|intros _].
    apply tool_bind; [apply R_submit | intros _; apply tool_ret]. }
  destruct (String.eqb (name req) "tidal_get_history"); [|intros s; apply R_refl].
  intros s. rewrite getHistory_pure. apply R_refl.
Qed.

Hypothesis R_event : forall ev s, R s (on_event ev s).

Lemma step_frame s i : R s (step cfg s i).
Proof.
  destruct i as [env req|ev]; simpl; [|apply R_event].
  rewrite snd_handle. apply dispatch_frame.
Qed.

Lemma exec_frame inputs : forall s, R s (exec cfg s inputs).
Proof.
  induction inputs as [|i inputs IH]; intros s; [apply R_refl|].
  change (exec cfg s (i :: inputs)) with (exec cfg (step cfg s i) inputs).
  eapply R_trans; [apply step_frame | apply IH].
Qed.
End ToolFrames.

(** ** The reconnect guard between calls *)

Lemma await_init_process env s :
  spawned (await_init env s) = spawned s /\
  isReconnecting (await_init env s) = isReconnecting s.
Proof.
  unfold await_init. generalize (init_events env) as evs. intros evs. revert s.
  induction evs as [|ev evs IH]; intros s; simpl; [auto|].
  destruct (IH (on_event ev s)) as [Hs Hr].
  destruct (on_event_process ev s) as [Hs' Hr']. split; congruence.
Qed.

Lemma startGhci_begin_guard cfg env s :
  isReconnecting (snd (startGhci_begin cfg env s)) = isReconnecting s.
Proof.
  unfold startGhci_begin.
  destruct (ghciProcess s) as [p|], (ghciStreamAlive s), (spawn_throws env); reflexivity.
Qed.

Lemma sendToGhci_releases_guard cfg env code s :
  isReconnecting s = false ->
  isReconnecting (snd (sendToGhci cfg env code s)) = false.
Proof.
  intros Hfree. unfold sendToGhci, bind, sendToGhci_enter. rewrite Hfree.
  destruct (isGhciHealthy s).
  - simpl. destruct (stdin_write_process env code s) as [_ Hr].
    destruct (stdin_write env code s) as [[]]; simpl in *; congruence.
  - destruct (startGhci_begin cfg env (set_isReconnecting true s)) as [[[]|e] s1];
      simpl; [| |reflexivity].
    + destruct (stdin_write_process env code (set_isReconnecting false s1)) as [_ Hr].
      destruct (stdin_write env code (set_isReconnecting false s1)) as [[]];
        simpl in *; exact Hr.
    + destruct (stdin_write_process env code
                  (sendToGhci_resume (await_init env s1))) as [_ Hr].
      destruct (stdin_write env code (sendToGhci_resume (await_init env s1))) as [[]];
        simpl in *; exact Hr.
Qed.

Lemma submit_releases_guard cfg env code s :
  isReconnecting s = false -> isReconnecting (snd (submit cfg env code s)) = false.
Proof.
  unfold submit. destruct (useGhci cfg); [apply sendToGhci_releases_guard|].
  unfold writeToTidalFile, fs_writeFile.
  destruct (writeFile_error env); intros H; exact H.
Qed.

Lemma run_guard cfg env s :
  isReconnecting (snd (run cfg env s)) = isReconnecting s.
Proof.
  unfold run, bind.
  assert (Hw : forall s1, isReconnecting
                 (snd (swallow (fs_writeFile env (logFile s1)
                                  (log_header cfg (toISOString env 0) (logFile s1))) s1))
               = isReconnecting s1).
  { intros s1. unfold swallow, fs_writeFile.
    destruct (writeFile_error env); reflexivity. }
  destruct (useGhci cfg); [|apply Hw].
  unfold startGhci, bind.
  pose proof (startGhci_begin_guard cfg env s) as Hb.
  destruct (startGhci_begin cfg env s) as [[[]|e] s1]; simpl in *.
  - rewrite Hw. exact Hb.
  - rewrite Hw. destruct (await_init_process env s1) as [_ Hr]. congruence.
  - exact Hb.
Qed.

(** X11: Between the calls of a session the reconnect guard is never held:
    every path through [sendToGhci] that takes it gives it back, also when
    the reconnect throws. So a call that starts when no other is in flight
    is never refused with the "currently reconnecting" error at the health
    check. *)
Theorem guard_free_between_calls cfg default_log env0 s0 inputs env :
  run cfg env0 (constructor cfg default_log) = (Ok tt, s0) ->
  let s := exec cfg s0 inputs in
  isReconnecting s = false /\
  fst (sendToGhci_enter cfg env s) <> Thrown reconnecting_message.
Proof.
  intros Hboot. cbv zeta.
  assert (H0 : isReconnecting s0 = false).
  { pose proof (run_guard cfg env0 (constructor cfg default_log)) as H.
    rewrite Hboot in H. exact H. }
  assert (Hfree : isReconnecting (exec cfg s0 inputs) = false).
  { apply (exec_frame (fun s s' => isReconnecting s = false -> isReconnecting s' = false)
             cfg).
    - auto.
    - auto.
    - intros env1 text s. unfold fs_appendFile.
      destruct (appendFile_error env1); auto.
    - auto.
    - auto.
    - intros env1 code s. apply submit_releases_guard.
    - intros ev s. destruct (on_event_process ev s) as [_ ->]. auto.
    - exact H0. }
  split; [exact Hfree|].
  unfold sendToGhci_enter. rewrite Hfree.
  destruct (isGhciHealthy (exec cfg s0 inputs)); [discriminate|].
  destruct (startGhci_begin cfg env (set_isReconnecting true (exec cfg s0 inputs)))
    as [[[]|e] s1]; simpl; discriminate.
Qed.

Lemma guard_free_between_calls_witness :
  isReconnecting
    (exec Sample.ghci_cfg Sample.ghci_boot
       [Call Sample.env_broken_pipe (eval_request "d1" "s bd");
        Call Sample.env_ok (eval_request "d1" "s bd")]) = false.
Proof.
  apply (guard_free_between_calls Sample.ghci_cfg Sample.log_path Sample.env_ok
           Sample.ghci_boot
           [Call Sample.env_broken_pipe (eval_request "d1" "s bd");
            Call Sample.env_ok (eval_request "d1" "s bd")]
           Sample.env_ok).
  reflexivity.
Defined.

(** ** One send *)

Lemma startGhci_begin_spawned cfg env s :
  spawned s <= spawned (snd (startGhci_begin cfg env s)) <= S (spawned s).
Proof.
  unfold startGhci_begin.
  destruct (ghciProcess s) as [p|], (ghciStreamAlive s), (spawn_throws env);
    simpl; lia.
Qed.

(** X12: One send spawns at most one process, whatever it finds and whatever
    happens to it. *)
Theorem send_spawns_at_most_once cfg env code s :
  spawned s <= spawned (snd (sendToGhci cfg env code s)) <= S (spawned s).
Proof.
  unfold sendToGhci, bind, sendToGhci_enter.
  destruct (isGhciHealthy s).
  - simpl. destruct (stdin_write_process env code s) as [Hs _].
    destruct (stdin_write env code s) as [[]]; simpl in *; lia.
  - destruct (isReconnecting s); [simpl; lia|].
    pose proof (startGhci_begin_spawned cfg env (set_isReconnecting true s)) as Hb.
    destruct (startGhci_begin cfg env (set_isReconnecting true s)) as [[[]|e] s1];
      simpl in *; [| |lia].
    + destruct (stdin_write_process env code (set_isReconnecting false s1)) as [Hs _].
      destruct (stdin_write env code (set_isReconnecting false s1)) as [[]];
        simpl in *; lia.
    + destruct (stdin_write_process env code
                  (sendToGhci_resume (await_init env s1))) as [Hs _].
      destruct (await_init_process env s1) as [Ha _].
      destruct (stdin_write env code (sendToGhci_resume (await_init env s1))) as [[]];
        simpl in *; lia.
Qed.

(** X13: A send that finds the interpreter healthy does nothing but write the
    command and a line end to the stdin of the process it holds. When the
    write is refused the error goes to the caller and the only change is
    the liveness flag, now false: the process is kept and nothing is
    respawned by this call. *)
Theorem healthy_send_is_one_write cfg env code s :
  isGhciHealthy s = true ->
  exists p,
    ghciProcess s = Some p /\
    sendToGhci cfg env code s =
      match stdin_write_error env with
      | None => (Ok tt, emit (StdinWrite (pid p) (code +:+ nl)) s)
      | Some e => (Thrown e, set_ghciStreamAlive false s)
      end.
Proof.
  intros Hh. unfold sendToGhci, bind, sendToGhci_enter. rewrite Hh. simpl.
  unfold isGhciHealthy in Hh. unfold stdin_write.
  destruct (ghciProcess s) as [p|]; [|rewrite andb_false_r in Hh; discriminate].
  exists p. split; [reflexivity|].
  apply andb_prop in Hh as [_ Hp]. apply andb_prop in Hp as [Hp Hk].
  apply andb_prop in Hp as [Hstdin Hd]. rewrite Hstdin.
  destruct (stdin_destroyed p); [discriminate|].
  destruct (stdin_write_error env); reflexivity.
Qed.

Lemma healthy_send_is_one_write_witness :
  sendToGhci Sample.ghci_cfg Sample.env_broken_pipe "hush" Sample.ghci_boot =
    (Thrown "write EPIPE", set_ghciStreamAlive false Sample.ghci_boot).
Proof.
  destruct (healthy_send_is_one_write Sample.ghci_cfg Sample.env_broken_pipe "hush"
              Sample.ghci_boot eq_refl) as (p & Hp & H).
  exact H.
Defined.

(** X14: A send that finds no process, with the guard free, on a host where the
    spawn works, the new process has a stdin, nothing fires during the wait
    and the write is accepted: it spawns one process, with the command of
    GHCI_PATH or "ghci" and the boot script of the configuration or
    "BootTidal.hs", writes the command to that process, and leaves the
    server alive with the guard free. *)
Theorem dead_send_respawns_then_writes cfg env code s :
  ghciProcess s = None ->
  isReconnecting s = false ->
  spawn_throws env = None ->
  spawn_has_stdin env = true ->
  init_events env = [] ->
  stdin_write_error env = None ->
  let r := sendToGhci cfg env code s in
  fst r = Ok tt /\
  effects (snd r) =
    (effects s ++
     [Spawn (spawned s) (or_default (GHCI_PATH env) "ghci")
        ["-ghci-script"; or_default (bootTidalPath cfg) "BootTidal.hs"];
      StdinWrite (spawned s) (code +:+ nl)])%list /\
  ghciProcess (snd r) = Some (mkChildProcess (spawned s) true false false) /\
  ghciStreamAlive (snd r) = true /\
  isReconnecting (snd r) = false /\
  spawned (snd r) = S (spawned s).
Proof.
  intros Hp Hg Hs Hi He Hw. cbv zeta.
  unfold sendToGhci, bind, sendToGhci_enter, isGhciHealthy, startGhci_begin.
  rewrite Hp, Hg, andb_false_r. cbn [ghciProcess set_isReconnecting].
  rewrite Hp, Hs, Hi. cbn -[String.append].
  unfold await_init, stdin_write. rewrite He. cbn -[String.append].
  rewrite Hw. cbn -[String.append]. rewrite <- app_assoc. repeat split; reflexivity.
Qed.

Lemma dead_send_respawns_then_writes_witness :
  effects (snd (sendToGhci Sample.ghci_cfg Sample.env_ok "hush" Sample.ghci_dead)) =
    (effects Sample.ghci_dead ++
     [Spawn 1 "ghci" ["-ghci-script"; "BootTidal.hs"];
      StdinWrite 1 ("hush" +:+ nl)])%list.
Proof.
  destruct (dead_send_respawns_then_writes Sample.ghci_cfg Sample.env_ok "hush"
              Sample.ghci_dead eq_refl eq_refl eq_refl eq_refl eq_refl eq_refl)
    as (_ & H & _).
  exact H.
Defined.

(** ** File mode *)

Lemma no_interpreter_emit e s :
  is_file_effect e = true -> no_interpreter s -> no_interpreter (emit e s).
Proof.
  intros He (Hp & Ha & Hn & Hf). repeat split; auto.
  simpl. rewrite forallb_app, Hf. simpl. rewrite He. reflexivity.
Qed.

Lemma fs_appendFile_no_interpreter env path text s :
  no_interpreter s -> no_interpreter (snd (fs_appendFile env path text s)).
Proof.
  unfold fs_appendFile. destruct (appendFile_error env); [auto|].
  intros H. apply (no_interpreter_emit (FsAppend path text)); [reflexivity|exact H].
Qed.

Lemma fs_writeFile_no_interpreter env path text s :
  no_interpreter s -> no_interpreter (snd (fs_writeFile env path text s)).
Proof.
  unfold fs_writeFile. destruct (writeFile_error env); [auto|].
  intros H. apply (no_interpreter_emit (FsWrite path text)); [reflexivity|exact H].
Qed.

Lemma on_event_no_interpreter ev s : no_interpreter s -> no_interpreter (on_event ev s).
Proof.
  intros (Hp & Ha & Hn & Hf).
  destruct ev; repeat split; simpl; auto. rewrite Hp. reflexivity.
Qed.

(** X15: In file mode the server never starts an interpreter: in every state of
    a session it holds no process, its count of spawned processes is zero,
    and its trace holds nothing but appends to and writes of files. *)
Theorem file_mode_never_starts_interpreter cfg default_log env0 s0 inputs :
  useGhci cfg = false ->
  run cfg env0 (constructor cfg default_log) = (Ok tt, s0) ->
  no_interpreter (exec cfg s0 inputs).
Proof.
  intros Hf Hboot.
  assert (H0 : no_interpreter s0).
  { unfold run, bind in Hboot. rewrite Hf in Hboot. simpl in Hboot.
    injection Hboot as <-. apply fs_writeFile_no_interpreter.
    repeat split; reflexivity. }
  apply (exec_frame (fun s s' => no_interpreter s -> no_interpreter s') cfg).
  - auto.
  - auto.
  - intros env text s. apply fs_appendFile_no_interpreter.
  - intros v s H. exact H.
  - intros v s H. exact H.
  - intros env code s. unfold submit, writeToTidalFile. rewrite Hf.
    apply fs_writeFile_no_interpreter.
  - intros ev s. apply on_event_no_interpreter.
  - exact H0.
Qed.

Lemma file_mode_never_starts_interpreter_witness :
  no_interpreter
    (exec Sample.file_cfg Sample.file_boot
       [Call Sample.env_ok (eval_request "d1" "s bd");
        Event ProcExit;
        Call Sample.env_readonly (tool_request "tidal_solo" "d1")]).
Proof.
  apply (file_mode_never_starts_interpreter Sample.file_cfg Sample.log_path Sample.env_ok
           Sample.file_boot); reflexivity.
Defined.

(** ** GHCi mode *)

Lemma only_log_changed_refl s : only_log_changed s s.
Proof. split; auto. Qed.

Lemma only_log_changed_trans s1 s2 s3 :
  only_log_changed s1 s2 -> only_log_changed s2 s3 -> only_log_changed s1 s3.
Proof.
  intros [L1 F1] [L2 F2]. split; [congruence|].
  intros path Hne. rewrite F2 by congruence. apply F1. exact Hne.
Qed.

Lemma on_event_files ev s :
  files (on_event ev s) = files s /\ logFile (on_event ev s) = logFile s.
Proof. destruct ev; split; reflexivity. Qed.

Lemma await_init_files env s :
  files (await_init env s) = files s /\ logFile (await_init env s) = logFile s.
Proof.
  unfold await_init. generalize (init_events env) as evs. intros evs. revert s.
  induction evs as [|ev evs IH]; intros s; simpl; [auto|].
  destruct (IH (on_event ev s)) as [Hf Hl].
  destruct (on_event_files ev s) as [Hf' Hl']. split; congruence.
Qed.

Lemma startGhci_begin_files cfg env s :
  files (snd (startGhci_begin cfg env s)) = files s /\
  logFile (snd (startGhci_begin cfg env s)) = logFile s.
Proof.
  unfold startGhci_begin.
  destruct (ghciProcess s) as [p|], (ghciStreamAlive s), (spawn_throws env);
    split; reflexivity.
Qed.

Lemma stdin_write_files env code s :
  files (snd (stdin_write env code s)) = files s /\
  logFile (snd (stdin_write env code s)) = logFile s.
Proof.
  unfold stdin_write.
  destruct (ghciProcess s) as [p|]; [|auto].
  destruct (has_stdin p); [|auto].
  destruct (stdin_destroyed p); [auto|].
  destruct (stdin_write_error env); auto.
Qed.

(** The pipe sink touches no file. *)
Lemma sendToGhci_files cfg env code s :
  files (snd (sendToGhci cfg env code s)) = files s /\
  logFile (snd (sendToGhci cfg env code s)) = logFile s.
Proof.
  unfold sendToGhci, bind, sendToGhci_enter.
  destruct (isGhciHealthy s).
  - simpl. destruct (stdin_write_files env code s) as [Hf Hl].
    destruct (stdin_write env code s) as [[]]; simpl in *; auto.
  - destruct (isReconnecting s); [auto|].
    destruct (startGhci_begin_files cfg env (set_isReconnecting true s)) as [Bf Bl].
    destruct (startGhci_begin cfg env (set_isReconnecting true s)) as [[[]|e] s1];
      simpl in *; [| |auto].
    + destruct (stdin_write_files env code (set_isReconnecting false s1)) as [Hf Hl].
      destruct (stdin_write env code (set_isReconnecting false s1)) as [[]];
        simpl in *; split; congruence.
    + destruct (stdin_write_files env code
                  (sendToGhci_resume (await_init env s1))) as [Hf Hl].
      destruct (await_init_files env s1) as [Af Al].
      destruct (stdin_write env code (sendToGhci_resume (await_init env s1))) as [[]];
        simpl in *; split; congruence.
Qed.

Lemma fs_appendFile_only_log env text s :
  only_log_changed s (snd (fs_appendFile env (logFile s) text s)).
Proof.
  unfold fs_appendFile. destruct (appendFile_error env); [apply only_log_changed_refl|].
  split; [reflexivity|]. intros path Hne. simpl. apply lookup_insert_ne. congruence.
Qed.

(** X16: In GHCi mode the only file the server ever touches is its session log:
    after start-up and any session every other path, the output file
    included, has no file. *)
Theorem ghci_mode_writes_only_the_log cfg default_log env0 s0 inputs path :
  useGhci cfg = true ->
  run cfg env0 (constructor cfg default_log) = (Ok tt, s0) ->
  path <> or_default (cfg_logFile cfg) default_log ->
  logFile (exec cfg s0 inputs) = or_default (cfg_logFile cfg) default_log /\
  files (exec cfg s0 inputs) !! path = None.
Proof.
  intros Hg Hboot Hne.
  assert (H0 : logFile s0 = or_default (cfg_logFile cfg) default_log /\
               files s0 !! path = None).
  { unfold run, bind, startGhci, bind in Hboot. rewrite Hg in Hboot.
    destruct (startGhci_begin_files cfg env0 (constructor cfg default_log)) as [Bf Bl].
    destruct (startGhci_begin cfg env0 (constructor cfg default_log)) as [[[]|e] s1];
      simpl in *; [| |discriminate].
    - unfold swallow, fs_writeFile in Hboot. injection Hboot as <-.
      destruct (writeFile_error env0); simpl; rewrite ?Bl; split; auto.
      + rewrite Bf. reflexivity.
      + rewrite lookup_insert_ne by congruence. rewrite Bf. reflexivity.
    - destruct (await_init_files env0 s1) as [Af Al].
      unfold swallow, fs_writeFile in Hboot. injection Hboot as <-.
      destruct (writeFile_error env0); simpl; rewrite ?Al, ?Bl; split; auto.
      + rewrite Af, Bf. reflexivity.
      + rewrite lookup_insert_ne by congruence. rewrite Af, Bf. reflexivity. }
  destruct H0 as [Hl0 Hf0].
  destruct (exec_frame only_log_changed cfg only_log_changed_refl only_log_changed_trans)
    with (inputs := inputs) (s := s0) as [Hl Hfiles].
  - intros env text s. apply fs_appendFile_only_log.
  - intros v s. split; [reflexivity | intros; reflexivity].
  - intros v s. split; [reflexivity | intros; reflexivity].
  - intros env code s. unfold submit. rewrite Hg.
    destruct (sendToGhci_files cfg env code s) as [Hf Hl].
    split; [exact Hl|]. intros q _. rewrite Hf. reflexivity.
  - intros ev s. destruct (on_event_files ev s) as [Hf Hl].
    split; [exact Hl|]. intros q _. rewrite Hf. reflexivity.
  - split; [congruence|]. rewrite Hfiles by congruence. exact Hf0.
Qed.

Lemma ghci_mode_writes_only_the_log_witness :
  files (exec Sample.ghci_cfg Sample.ghci_boot
           [Call Sample.env_ok (eval_request "d1" "s bd");
            Call (Sample.env_at 2000) (mkRequest "tidal_hush" (Some Sample.args_none))])
    !! tidalFile Sample.ghci_cfg = None.
Proof.
  apply (ghci_mode_writes_only_the_log Sample.ghci_cfg Sample.log_path Sample.env_ok
           Sample.ghci_boot
           [Call Sample.env_ok (eval_request "d1" "s bd");
            Call (Sample.env_at 2000) (mkRequest "tidal_hush" (Some Sample.args_none))]
           (tidalFile Sample.ghci_cfg));
    [reflexivity | reflexivity | discriminate].
Defined.

(** ** The session log *)

Lemma append_empty_r (x : string) : x +:+ "" = x.
Proof.
  induction x as [|c x IH]; [reflexivity|].
  change (String c (x +:+ "") = String c x). f_equal. exact IH.
Qed.

Lemma append_assoc (x y z : string) : (x +:+ y) +:+ z = x +:+ y +:+ z.
Proof.
  induction x as [|c x IH]; [reflexivity|].
  change (String c ((x +:+ y) +:+ z) = String c (x +:+ y +:+ z)). f_equal. exact IH.
Qed.

Lemma log_grew_refl s : log_grew s s.
Proof. split; [reflexivity|]. exists "". symmetry. apply append_empty_r. Qed.

Lemma log_grew_trans s1 s2 s3 : log_grew s1 s2 -> log_grew s2 s3 -> log_grew s1 s3.
Proof.
  intros [L1 (x & H1)] [L2 (y & H2)]. split; [congruence|].
  exists (x +:+ y). rewrite H2, H1. apply append_assoc.
Qed.

Lemma log_grew_same s s' :
  logFile s' = logFile s -> files s' !! logFile s = files s !! logFile s ->
  log_grew s s'.
Proof.
  intros Hl Hf. split; [exact Hl|]. exists "".
  unfold log_text. rewrite Hl, Hf. symmetry. apply append_empty_r.
Qed.

Lemma fs_appendFile_log_grew env text s :
  log_grew s (snd (fs_appendFile env (logFile s) text s)).
Proof.
  unfold fs_appendFile. destruct (appendFile_error env); [apply log_grew_refl|].
  split; [reflexivity|]. exists text. unfold log_text. simpl.
  rewrite lookup_insert_eq. reflexivity.
Qed.

(** X17: The session log only grows. From any state, when the sink is the pipe
    or the output file is another file than the log, a session leaves the
    log with all it held before, followed by what the session added. *)
Theorem session_log_only_grows cfg s inputs :
  useGhci cfg = true \/ tidalFile cfg <> logFile s ->
  logFile (exec cfg s inputs) = logFile s /\
  exists suffix, log_text (exec cfg s inputs) = log_text s +:+ suffix.
Proof.
  intros Hcond.
  apply (exec_frame
           (fun s s' => useGhci cfg = true \/ tidalFile cfg <> logFile s -> log_grew s s')
           cfg); [| | | | | | |exact Hcond].
  - intros s1 _. apply log_grew_refl.
  - intros s1 s2 s3 H12 H23 Hc. specialize (H12 Hc).
    apply (log_grew_trans s1 s2 s3 H12). apply H23.
    destruct H12 as [-> _]. exact Hc.
  - intros env text s1 _. apply fs_appendFile_log_grew.
  - intros v s1 _. apply log_grew_same; reflexivity.
  - intros v s1 _. apply log_grew_same; reflexivity.
  - intros env code s1 Hc. unfold submit. destruct (useGhci cfg).
    + destruct (sendToGhci_files cfg env code s1) as [Hf Hl].
      apply log_grew_same; [exact Hl | rewrite Hf; reflexivity].
    + destruct Hc as [Hc|Hc]; [discriminate|].
      unfold writeToTidalFile, fs_writeFile.
      destruct (writeFile_error env); [apply log_grew_refl|].
      apply log_grew_same; [reflexivity|]. simpl. apply lookup_insert_ne. exact Hc.
  - intros ev s1 _. destruct (on_event_files ev s1) as [Hf Hl].
    apply log_grew_same; [exact Hl | rewrite Hf; reflexivity].
Qed.

Lemma session_log_only_grows_witness :
  exists suffix,
    log_text (exec Sample.file_cfg Sample.file_boot
                [Call Sample.env_ok (eval_request "d1" "s bd");
                 Call (Sample.env_at 2000) (tool_request "tidal_solo" "d1")]) =
    log_text Sample.file_boot +:+ suffix.
Proof.
  apply (session_log_only_grows Sample.file_cfg Sample.file_boot
           [Call Sample.env_ok (eval_request "d1" "s bd");
            Call (Sample.env_at 2000) (tool_request "tidal_solo" "d1")]).
  right. discriminate.
Defined.

(** ** The process a command is written to *)

Lemma last_spawned_snoc last trace e :
  last_spawned last (trace ++ [e]) =
  match e with
  | Spawn n _ _ => Some n
  | _ => last_spawned last trace
  end.
Proof.
  revert last. induction trace as [|x trace IH]; intros last; simpl.
  - destruct e; reflexivity.
  - destruct x; apply IH.
Qed.

Lemma addressed_snoc last trace e :
  addressed last (trace ++ [e]) =
  addressed last trace &&
  match e with
  | StdinWrite p _ =>
      match last_spawned last trace with
      | Some n => Nat.eqb n p
      | None => false
      end
  | _ => true
  end.
Proof.
  revert last. induction trace as [|x trace IH]; intros last; simpl.
  - destruct e; try reflexivity. destruct last; [|reflexivity].
    rewrite andb_true_r. reflexivity.
  - destruct x; try apply IH. destruct last; [|reflexivity].
    rewrite IH, andb_assoc. reflexivity.
Qed.

(** A step that leaves the trace alone and holds, if any, a process with
    the number of the one held before. *)
Lemma holds_latest_same s s' :
  effects s' = effects s ->
  (forall p', ghciProcess s' = Some p' ->
              exists p, ghciProcess s = Some p /\ pid p = pid p') ->
  holds_latest s -> holds_latest s'.
Proof.
  intros He Hp [Ha Hl]. split; [rewrite He; exact Ha|].
  intros p' Hp'. destruct (Hp p' Hp') as (p & Hs & <-). rewrite He. apply Hl, Hs.
Qed.

Lemma holds_latest_emit_file e s :
  is_file_effect e = true -> holds_latest s -> holds_latest (emit e s).
Proof.
  intros He [Ha Hl]. split; simpl.
  - rewrite addressed_snoc, Ha. destruct e; try reflexivity; discriminate.
  - intros p Hp. rewrite last_spawned_snoc.
    destruct e; try discriminate; apply Hl, Hp.
Qed.

Lemma fs_appendFile_holds_latest env path text s :
  holds_latest s -> holds_latest (snd (fs_appendFile env path text s)).
Proof.
  unfold fs_appendFile. destruct (appendFile_error env); [auto|]. intros H.
  apply (holds_latest_emit_file (FsAppend path text)); [reflexivity|].
  revert H. apply holds_latest_same; [reflexivity|eauto].
Qed.

Lemma fs_writeFile_holds_latest env path text s :
  holds_latest s -> holds_latest (snd (fs_writeFile env path text s)).
Proof.
  unfold fs_writeFile. destruct (writeFile_error env); [auto|]. intros H.
  apply (holds_latest_emit_file (FsWrite path text)); [reflexivity|].
  revert H. apply holds_latest_same; [reflexivity|eauto].
Qed.

Lemma on_event_holds_latest ev s : holds_latest s -> holds_latest (on_event ev s).
Proof.
  apply holds_latest_same; [apply on_event_effects|].
  destruct ev; simpl; eauto; try discriminate.
  intros p' Hp'. destruct (ghciProcess s) as [p|]; [|discriminate].
  injection Hp' as <-. eauto.
Qed.

Lemma await_init_holds_latest env s : holds_latest s -> holds_latest (await_init env s).
Proof.
  unfold await_init. generalize (init_events env) as evs. intros evs. revert s.
  induction evs as [|ev evs IH]; intros s H; simpl; [exact H|].
  apply IH, on_event_holds_latest, H.
Qed.

Lemma startGhci_begin_holds_latest cfg env s :
  holds_latest s -> holds_latest (snd (startGhci_begin cfg env s)).
Proof.
  intros [Ha Hl]. unfold startGhci_begin.
  assert (Hkill : forall p, ghciProcess s = Some p ->
            holds_latest (set_ghciProcess None (emit (Kill (pid p)) s))).
  { intros p Hp. split; simpl.
    - rewrite addressed_snoc, Ha. reflexivity.
    - discriminate. }
  assert (Hspawn : forall s1, addressed None (effects s1) = true ->
            forall c a, holds_latest
              (set_ghciStreamAlive true
                 (set_ghciProcess
                    (Some (mkChildProcess (spawned s1) (spawn_has_stdin env) false false))
                    (set_spawned (S (spawned s1)) (emit (Spawn (spawned s1) c a) s1))))).
  { intros s1 Ha1 c a. split; simpl.
    - rewrite addressed_snoc, Ha1. reflexivity.
    - intros p Hp. injection Hp as <-. rewrite last_spawned_snoc. reflexivity. }
  assert (Hs : holds_latest s) by (split; assumption).
  destruct (ghciProcess s) as [p|] eqn:Hp.
  - destruct (ghciStreamAlive s); [exact Hs|].
    destruct (spawn_throws env); simpl; [apply (Hkill p eq_refl)|].
    apply (Hspawn (set_ghciProcess None (emit (Kill (pid p)) s))).
    apply (Hkill p eq_refl).
  - destruct (spawn_throws env); simpl; [exact Hs|].
    apply (Hspawn s Ha).
Qed.

Lemma stdin_write_holds_latest env code s :
  holds_latest s -> holds_latest (snd (stdin_write env code s)).
Proof.
  intros Hs. unfold stdin_write.
  assert (Hdead : holds_latest (set_ghciStreamAlive false s)).
  { revert Hs. apply holds_latest_same; [reflexivity|eauto]. }
  destruct (ghciProcess s) as [p|] eqn:Hp; [|exact Hs].
  destruct (has_stdin p); [|exact Hs].
  destruct (stdin_destroyed p); [exact Hdead|].
  destruct (stdin_write_error env); [exact Hdead|].
  destruct Hs as [Ha Hl]. split; simpl.
  - rewrite addressed_snoc, Ha, (Hl p Hp), Nat.eqb_refl. reflexivity.
  - intros p' Hp'. rewrite last_spawned_snoc. apply Hl. exact Hp'.
Qed.

Lemma set_isReconnecting_holds_latest b s :
  holds_latest s -> holds_latest (set_isReconnecting b s).
Proof. apply holds_latest_same; [reflexivity|eauto]. Qed.

Lemma sendToGhci_holds_latest cfg env code s :
  holds_latest s -> holds_latest (snd (sendToGhci cfg env code s)).
Proof.
  intros H. unfold sendToGhci, bind, sendToGhci_enter.
  destruct (isGhciHealthy s).
  - simpl. pose proof (stdin_write_holds_latest env code s H) as Hw.
    destruct (stdin_write env code s) as [[]]; exact Hw.
  - destruct (isReconnecting s); [exact H|].
    pose proof (startGhci_begin_holds_latest cfg env (set_isReconnecting true s)
                  (set_isReconnecting_holds_latest true s H)) as Hb.
    destruct (startGhci_begin cfg env (set_isReconnecting true s)) as [[[]|e] s1];
      simpl in *.
    + pose proof (stdin_write_holds_latest env code (set_isReconnecting false s1)
                    (set_isReconnecting_holds_latest false s1 Hb)) as Hw.
      destruct (stdin_write env code (set_isReconnecting false s1)) as [[]]; exact Hw.
    + pose proof (stdin_write_holds_latest env code
                    (sendToGhci_resume (await_init env s1))
                    (set_isReconnecting_holds_latest false _
                       (await_init_holds_latest env s1 Hb))) as Hw.
      destruct (stdin_write env code (sendToGhci_resume (await_init env s1))) as [[]];
        exact Hw.
    + apply set_isReconnecting_holds_latest, Hb.
Qed.

Lemma run_holds_latest cfg env s :
  holds_latest s -> holds_latest (snd (run cfg env s)).
Proof.
  intros H. unfold run, bind.
  destruct (useGhci cfg); [|apply fs_writeFile_holds_latest, H].
  unfold startGhci, bind.
  pose proof (startGhci_begin_holds_latest cfg env s H) as Hb.
  destruct (startGhci_begin cfg env s) as [[[]|e] s1]; simpl in *.
  - apply fs_writeFile_holds_latest, Hb.
  - apply fs_writeFile_holds_latest, await_init_holds_latest, Hb.
  - exact Hb.
Qed.

(** X18: No command is ever written to a replaced interpreter. In the trace of
    start-up followed by any session, every write to a stdin goes to the
    process that was the last one spawned when the write was made, and the
    process the server holds, when it holds one, is the last one
    spawned. *)
Theorem writes_go_to_latest_process cfg default_log env0 s0 inputs :
  run cfg env0 (constructor cfg default_log) = (Ok tt, s0) ->
  let s := exec cfg s0 inputs in
  addressed None (effects s) = true /\
  (forall p, ghciProcess s = Some p -> last_spawned None (effects s) = Some (pid p)).
Proof.
  intros Hboot. cbv zeta.
  assert (H0 : holds_latest s0).
  { pose proof (run_holds_latest cfg env0 (constructor cfg default_log)) as H.
    rewrite Hboot in H. apply H. split; [reflexivity|discriminate]. }
  apply (exec_frame (fun s s' => holds_latest s -> holds_latest s') cfg).
  - auto.
  - auto.
  - intros env text s. apply fs_appendFile_holds_latest.
  - intros v s. apply holds_latest_same; [reflexivity|eauto].
  - intros v s. apply holds_latest_same; [reflexivity|eauto].
  - intros env code s. unfold submit. destruct (useGhci cfg).
    + apply sendToGhci_holds_latest.
    + apply fs_writeFile_holds_latest.
  - intros ev s. apply on_event_holds_latest.
  - exact H0.
Qed.

Lemma writes_go_to_latest_process_witness :
  addressed None
    (effects (exec Sample.ghci_cfg Sample.ghci_boot
                [Call Sample.env_broken_pipe (eval_request "d1" "s bd");
                 Call Sample.env_ok (eval_request "d1" "s bd");
                 Event ProcExit;
                 Call Sample.env_ok (tool_request "tidal_silence" "d1")])) = true.
Proof.
  apply (writes_go_to_latest_process Sample.ghci_cfg Sample.log_path Sample.env_ok
           Sample.ghci_boot
           [Call Sample.env_broken_pipe (eval_request "d1" "s bd");
            Call Sample.env_ok (eval_request "d1" "s bd");
            Event ProcExit;
            Call Sample.env_ok (tool_request "tidal_silence" "d1")]).
  reflexivity.
Defined.

(** ** A log that cannot be written *)

Ltac same_memory H :=
  unfold memory in H;
  injection H as ? ? ? ? ? ? ?.

(** Both states as records over the same server fields. *)
Ltac by_fields_of s' H :=
  destruct s'; unfold memory in H; cbn in H;
  injection H as ? ? ? ? ? ? ?; subst.

Ltac by_fields s s' H := destruct s; by_fields_of s' H.

Lemma agree_bind {A B} (m m' : M A) (k k' : A -> M B) :
  agree m m' -> (forall a, agree (k a) (k' a)) -> agree (bind m k) (bind m' k').
Proof.
  intros Hm Hk s s' Hs. unfold bind. destruct (Hm s s' Hs) as [Ho Hn].
  destruct (m s) as [[a|e] s1], (m' s') as [[a'|e'] s1']; simpl in *; try discriminate.
  - injection Ho as <-. apply Hk, Hn.
  - injection Ho as <-. auto.
Qed.

Lemma agree_ret {A} (a : A) : agree (ret a) (ret a).
Proof. intros s s' Hs. auto. Qed.

Lemma agree_log env env' text text' :
  agree (fun s => swallow (fs_appendFile env (logFile s) text) s)
        (fun s => swallow (fs_appendFile env' (logFile s) text') s).
Proof.
  intros s s' [Hm Hf]. split; [reflexivity|].
  assert (Hl : logFile s = logFile s') by (same_memory Hm; assumption).
  unfold swallow, fs_appendFile.
  destruct (appendFile_error env), (appendFile_error env'); simpl;
    (split; [exact Hm|]); intros path Hne; simpl in Hne |- *; rewrite <- ?Hl;
    rewrite ?lookup_insert_ne by congruence; apply Hf; exact Hne.
Qed.

Lemma agree_lift (f : State -> State) :
  (forall s s', memory s = memory s' -> memory (f s) = memory (f s')) ->
  (forall s, files (f s) = files s) ->
  (forall s, logFile (f s) = logFile s) ->
  agree (lift f) (lift f).
Proof.
  intros Hmem Hfiles Hlog s s' [Hm Hf]. split; [reflexivity|]. simpl.
  split; [apply Hmem, Hm|]. intros path Hne. rewrite !Hfiles. apply Hf.
  rewrite <- (Hlog s). exact Hne.
Qed.

Lemma on_event_memory ev s s' :
  memory s = memory s' -> memory (on_event ev s) = memory (on_event ev s').
Proof. intros H. same_memory H. destruct ev; unfold memory; simpl; congruence. Qed.

Lemma await_init_memory env s s' :
  memory s = memory s' -> memory (await_init env s) = memory (await_init env s').
Proof.
  unfold await_init. generalize (init_events env) as evs. intros evs. revert s s'.
  induction evs as [|ev evs IH]; intros s s' H; simpl; [exact H|].
  apply IH, on_event_memory, H.
Qed.

Lemma startGhci_begin_memory cfg env s s' :
  memory s = memory s' ->
  fst (startGhci_begin cfg env s) = fst (startGhci_begin cfg env s') /\
  memory (snd (startGhci_begin cfg env s)) = memory (snd (startGhci_begin cfg env s')).
Proof.
  intros H. destruct s as [c h [p|] [] r l f e n]; by_fields_of s' H;
    unfold startGhci_begin; cbn -[String.append];
    destruct (spawn_throws env); split; reflexivity.
Qed.

Lemma stdin_write_memory env code s s' :
  memory s = memory s' ->
  fst (stdin_write env code s) = fst (stdin_write env code s') /\
  memory (snd (stdin_write env code s)) = memory (snd (stdin_write env code s')).
Proof.
  intros H. destruct s as [c h [p|] al r l f e n]; by_fields_of s' H;
    unfold stdin_write; cbn -[String.append]; [|split; reflexivity].
  destruct (has_stdin p); [|split; reflexivity].
  destruct (stdin_destroyed p); [split; reflexivity|].
  destruct (stdin_write_error env); split; reflexivity.
Qed.

Lemma set_isReconnecting_memory b s s' :
  memory s = memory s' ->
  memory (set_isReconnecting b s) = memory (set_isReconnecting b s').
Proof. intros H. same_memory H. unfold memory. simpl. congruence. Qed.

(** What a send does to the server depends on the server's fields alone. *)
Lemma sendToGhci_memory cfg env code s s' :
  memory s = memory s' ->
  fst (sendToGhci cfg env code s) = fst (sendToGhci cfg env code s') /\
  memory (snd (sendToGhci cfg env code s)) = memory (snd (sendToGhci cfg env code s')).
Proof.
  intros H. unfold sendToGhci, bind, sendToGhci_enter.
  assert (Hh : isGhciHealthy s = isGhciHealthy s').
  { clear -H. by_fields s s' H. reflexivity. }
  assert (Hr : isReconnecting s = isReconnecting s').
  { clear -H. by_fields s s' H. reflexivity. }
  rewrite <- Hh, <- Hr.
  destruct (isGhciHealthy s).
  - simpl. destruct (stdin_write_memory env code s s' H) as [Ho Hm].
    destruct (stdin_write env code s) as [[]], (stdin_write env code s') as [[]];
      simpl in *; auto; discriminate.
  - destruct (isReconnecting s); [simpl; auto|].
    destruct (startGhci_begin_memory cfg env _ _ (set_isReconnecting_memory true s s' H))
      as [Bo Bm].
    destruct (startGhci_begin cfg env (set_isReconnecting true s)) as [[[]|e] s1],
             (startGhci_begin cfg env (set_isReconnecting true s')) as [[[]|e'] s1'];
      simpl in *; try discriminate.
    + destruct (stdin_write_memory env code _ _ (set_isReconnecting_memory false s1 s1' Bm))
        as [Ho Hm].
      destruct (stdin_write env code (set_isReconnecting false s1)) as [[]],
               (stdin_write env code (set_isReconnecting false s1')) as [[]];
        simpl in *; auto; discriminate.
    + destruct (stdin_write_memory env code _ _
                  (set_isReconnecting_memory false _ _ (await_init_memory env s1 s1' Bm)))
        as [Ho Hm].
      unfold sendToGhci_resume.
      destruct (stdin_write env code (set_isReconnecting false (await_init env s1))) as [[]],
               (stdin_write env code (set_isReconnecting false (await_init env s1'))) as [[]];
        simpl in *; auto; discriminate.
    + injection Bo as <-. split; [reflexivity|].
      apply set_isReconnecting_memory, Bm.
Qed.

Lemma agree_submit cfg env code : agree (submit cfg env code) (submit cfg env code).
Proof.
  intros s s' [Hm Hf]. unfold submit. destruct (useGhci cfg).
  - destruct (sendToGhci_memory cfg env code s s' Hm) as [Ho Hm'].
    split; [exact Ho|]. split; [exact Hm'|].
    destruct (sendToGhci_files cfg env code s) as [F L].
    destruct (sendToGhci_files cfg env code s') as [F' L'].
    intros path Hne. rewrite F, F'. apply Hf. congruence.
  - unfold writeToTidalFile, fs_writeFile.
    destruct (writeFile_error env); [split; [reflexivity | split; assumption]|].
    split; [reflexivity|]. split; [exact Hm|]. intros path Hne.
    cbn [snd files emit set_files].
    destruct (decide (tidalFile cfg = path)) as [<-|Hp].
    + rewrite !lookup_insert_eq. reflexivity.
    + rewrite !lookup_insert_ne by exact Hp. apply Hf. exact Hne.
Qed.

Lemma agree_dispatch cfg env o req :
  agree (dispatch cfg env req) (dispatch cfg (with_appendFile_error o env) req).
Proof.
  unfold dispatch. destruct (arguments req) as [a|]; [|intros s s' Hs; auto].
  destruct (String.eqb (name req) "tidal_eval").
  { unfold evalPattern. apply agree_bind; [apply agree_log|intros _].
    apply agree_bind; [|intros _].
    - apply agree_lift; try reflexivity.
      intros s s' H. same_memory H. unfold memory. simpl. congruence.
    - apply agree_bind; [exact (agree_submit cfg env _) | intros _; apply agree_ret]. }
  destruct (String.eqb (name req) "tidal_hush").
  { unfold hush. apply agree_bind; [apply agree_log|intros _].
    apply agree_bind; [|intros _].
    - apply agree_lift; try reflexivity.
      intros s s' H. same_memory H. unfold memory. simpl. congruence.
    - apply agree_bind; [exact (agree_submit cfg env _) | intros _; apply agree_ret]. }
  destruct (String.eqb (name req) "tidal_silence").
  { unfold silence. apply agree_bind; [apply agree_log|intros _].
    apply agree_bind; [|intros _].
    - apply agree_lift; try reflexivity.
      intros s s' H. same_memory H. unfold memory. simpl. congruence.
    - apply agree_bind; [exact (agree_submit cfg env _) | intros _; apply agree_ret]. }
  destruct (String.eqb (name req) "tidal_get_state").
  { intros s s' [Hm Hf]. unfold getState, getActive. cbn [fst snd].
    assert (channels s = channels s') as -> by (same_memory Hm; assumption).
    split; [reflexivity|]. split; assumption. }
  destruct (String.eqb (name req) "tidal_solo").
  { unfold solo. apply agree_bind; [apply agree_log|intros _].
    apply agree_bind; [exact (agree_submit cfg env _) | intros _; apply agree_ret]. }
  destruct (String.eqb (name req) "tidal_unsolo").
  { unfold unsolo. apply agree_bind; [apply agree_log|intros _].
    apply agree_bind; [exact (agree_submit cfg env _) | intros _; apply agree_ret]. }
  destruct (String.eqb (name req) "tidal_get_history"); [|intros s s' Hs; auto].
  intros s s' [Hm Hf]. rewrite !getHistory_pure. split; [|split; assumption].
  unfold getHistory, recent.
  assert (patternHistory s = patternHistory s') as -> by (same_memory Hm; assumption).
  destruct (_ =? _)%nat; reflexivity.
Qed.

(** X19: A session log that cannot be written changes nothing else: on the same
    state, the same call on a host whose [fs.appendFile] fails, or fails
    differently, gets the same response and leaves the same server fields
    and the same files, the log apart. *)
Theorem log_failure_changes_nothing_else cfg env o req s :
  let r := handle cfg env req s in
  let r' := handle cfg (with_appendFile_error o env) req s in
  fst r = fst r' /\
  memory (snd r) = memory (snd r') /\
  (forall path, path <> logFile s -> files (snd r) !! path = files (snd r') !! path).
Proof.
  cbv zeta.
  destruct (agree_dispatch cfg env o req s s) as [Ho [Hm Hf]]; [split; auto|].
  assert (Hl : logFile (snd (dispatch cfg env req s)) = logFile s).
  { apply (dispatch_frame (fun s s' => logFile s' = logFile s) cfg); try congruence;
      try reflexivity.
    - intros env1 text s1. unfold fs_appendFile.
      destruct (appendFile_error env1); reflexivity.
    - intros env1 code s1. unfold submit. destruct (useGhci cfg).
      + apply sendToGhci_files.
      + unfold writeToTidalFile, fs_writeFile.
        destruct (writeFile_error env1); reflexivity. }
  rewrite !snd_handle. unfold handle.
  destruct (dispatch cfg env req s) as [[t|e] s1],
           (dispatch cfg (with_appendFile_error o env) req s) as [[t'|e'] s1'];
    simpl in *; try discriminate; injection Ho as <-;
    (split; [reflexivity|]); (split; [exact Hm|]);
    intros path Hne; apply Hf; congruence.
Qed.

Lemma log_failure_changes_nothing_else_witness :
  let req := eval_request "d1" "s bd" in
  let r := handle Sample.file_cfg Sample.env_ok req Sample.file_boot in
  let r' := handle Sample.file_cfg
              (with_appendFile_error (Some "EROFS: read-only file system") Sample.env_ok)
              req Sample.file_boot in
  fst r = fst r' /\
  files (snd r) !! tidalFile Sample.file_cfg = files (snd r') !! tidalFile Sample.file_cfg.
Proof.
  cbv zeta.
  destruct (log_failure_changes_nothing_else Sample.file_cfg Sample.env_ok
              (Some "EROFS: read-only file system") (eval_request "d1" "s bd")
              Sample.file_boot) as (Hr & _ & Hf).
  split; [exact Hr|]. apply Hf. discriminate.
Defined.

(** ** The size of a history listing *)

Lemma truncate_opp q : truncate (Qopp q) = (- truncate q)%Z.
Proof.
  unfold truncate.
  destruct (Qle_bool 0 q) eqn:Hq, (Qle_bool 0 (Qopp q)) eqn:Hn.
  - apply Qle_bool_iff in Hq, Hn.
    assert (Hz : (q == 0)%Q).
    { apply Qle_antisym; [|exact Hq].
      apply Qopp_le_compat in Hn. rewrite Qopp_involutive in Hn. exact Hn. }
    rewrite Hz. reflexivity.
  - unfold Qceiling. rewrite Qopp_involutive. reflexivity.
  - unfold Qceiling. rewrite Z.opp_involutive. reflexivity.
  - exfalso.
    assert (Hlt : (q < 0)%Q).
    { apply Qnot_le_lt. intros H. apply Qle_bool_iff in H. congruence. }
    assert (Hle : (0 <= Qopp q)%Q).
    { apply Qopp_lt_compat in Hlt. apply Qlt_le_weak. exact Hlt. }
    apply Qle_bool_iff in Hle. congruence.
Qed.

Lemma truncate_whole k : truncate (inject_Z k) = k.
Proof.
  unfold truncate. destruct (Qle_bool 0 (inject_Z k)); [apply Qfloor_Z|apply Qceiling_Z].
Qed.

(** For a finite limit the listing is the one of the limit rounded towards
    zero. *)
Lemma recent_of_finite q s : recent_of (Finite q) s = recent (truncate q) s.
Proof.
  unfold recent_of, recent, slice_from, Array_slice. cbn [negate ToIntegerOrInfinity].
  rewrite truncate_opp. reflexivity.
Qed.

Lemma floor_of_fraction q : (0 <= q)%Q -> (q < 1)%Q -> Qfloor q = 0%Z.
Proof.
  intros H0 H1.
  assert (Hlo : (0 <= Qfloor q)%Z).
  { apply (Qfloor_resp_le 0 q) in H0. exact H0. }
  assert (Hhi : (Qfloor q < 1)%Z).
  { rewrite Zlt_Qlt. apply (Qle_lt_trans _ q); [apply Qfloor_le | exact H1]. }
  lia.
Qed.

(** X20: A history query with a positive whole limit k works on the
    min(k, n) newest of the n entries, newest first; with k at least n
    these are all entries; and it answers "No pattern history yet." exactly
    when the history is empty. A query without a limit works on at most 10
    entries. For a limit that is any other number the listing is the one of
    the limit rounded towards zero: a limit of 1 or more lists the floor of
    it many newest entries, a limit from 0 up to but not 1 lists the whole
    history, and so do plus infinity and NaN; minus infinity lists
    nothing. *)
Theorem history_query_size env k q s :
  ((0 < k)%Z ->
   recent k s = take (Z.to_nat k) (reverse (patternHistory s)) /\
   length (recent k s) = Nat.min (Z.to_nat k) (length (patternHistory s)) /\
   ((Z.of_nat (length (patternHistory s)) <= k)%Z ->
    recent k s = reverse (patternHistory s)) /\
   (fst (getHistory env (Some k) s) = Ok "No pattern history yet." <->
    patternHistory s = [])) /\
  length (recent (default_limit None) s) <= 10 /\
  recent_of (Finite (inject_Z k)) s = recent k s /\
  recent_of (Finite q) s = recent (truncate q) s /\
  ((1 <= q)%Q ->
   recent_of (Finite q) s = take (Z.to_nat (Qfloor q)) (reverse (patternHistory s)) /\
   length (recent_of (Finite q) s) =
     Nat.min (Z.to_nat (Qfloor q)) (length (patternHistory s))) /\
  ((0 <= q)%Q -> (q < 1)%Q -> recent_of (Finite q) s = reverse (patternHistory s)) /\
  recent_of PlusInfinity s = reverse (patternHistory s) /\
  recent_of NotANumber s = reverse (patternHistory s) /\
  recent_of MinusInfinity s = [].
Proof.
  assert (Hlen : forall k0, (0 < k0)%Z ->
            length (recent k0 s) = Nat.min (Z.to_nat k0) (length (patternHistory s))).
  { intros k0 Hk0. rewrite recent_positive by exact Hk0.
    rewrite length_take, length_reverse. reflexivity. }
  split; [intros Hk|].
  { split; [apply recent_positive, Hk|]. split; [apply Hlen, Hk|]. split.
    - intros Hall. rewrite recent_positive by exact Hk.
      apply take_ge. rewrite length_reverse. lia.
    - unfold getHistory. change (default_limit (Some k)) with k. cbv zeta.
      destruct (Nat.eqb_spec (length (recent k s)) 0) as [E|E]; simpl.
      + split; [intros _|reflexivity].
        rewrite (Hlen k Hk) in E. destruct (patternHistory s); [reflexivity|].
        simpl in E. lia.
      + split; [intros H; discriminate H|].
        intros Hnil. exfalso. apply E. rewrite (Hlen k Hk), Hnil. simpl. lia. }
  split; [rewrite Hlen by (cbn; lia); cbn; lia|].
  split; [rewrite recent_of_finite, truncate_whole; reflexivity|].
  split; [apply recent_of_finite|].
  split; [|split; [|split; [|split]]].
  - intros Hq.
    assert (Hnn : Qle_bool 0 q = true).
    { apply Qle_bool_iff. apply (Qle_trans _ 1); [discriminate | exact Hq]. }
    assert (Hfl : (1 <= Qfloor q)%Z).
    { apply (Qfloor_resp_le 1 q) in Hq. exact Hq. }
    rewrite recent_of_finite. unfold truncate. rewrite Hnn.
    split; [apply recent_positive; lia | apply Hlen; lia].
  - intros H0 H1. rewrite recent_of_finite. unfold truncate.
    apply Qle_bool_iff in H0 as Hnn. rewrite Hnn.
    rewrite (floor_of_fraction q H0 H1). apply recent_zero.
  - unfold recent_of, slice_from. cbn [negate ToIntegerOrInfinity Z.to_nat].
    rewrite drop_0. reflexivity.
  - unfold recent_of, slice_from. cbn [negate ToIntegerOrInfinity Z.ltb Z.compare].
    rewrite Z.min_l by lia. cbn [Z.to_nat]. rewrite drop_0. reflexivity.
  - unfold recent_of, slice_from. cbn [negate ToIntegerOrInfinity].
    rewrite Nat2Z.id, drop_all. reflexivity.
Qed.

Lemma history_query_size_witness :
  let s := exec Sample.file_cfg Sample.file_boot
             [Call Sample.env_ok (eval_request "d1" "s bd");
              Call (Sample.env_at 2000) (eval_request "d2" "s sn")] in
  (recent 1 s = [mkHistoryEntry "d2" "s sn" 2001] /\
   recent 5 s = reverse (patternHistory s)) /\
  recent_of (Finite (3 # 2)) s = [mkHistoryEntry "d2" "s sn" 2001] /\
  recent_of (Finite (1 # 2)) s = reverse (patternHistory s).
Proof.
  cbv zeta.
  destruct (history_query_size Sample.env_ok 1 (3 # 2)
              (exec Sample.file_cfg Sample.file_boot
                 [Call Sample.env_ok (eval_request "d1" "s bd");
                  Call (Sample.env_at 2000) (eval_request "d2" "s sn")]))
    as (Hone & _ & _ & _ & Hfloor & _).
  destruct (history_query_size Sample.env_ok 5 (1 # 2)
              (exec Sample.file_cfg Sample.file_boot
                 [Call Sample.env_ok (eval_request "d1" "s bd");
                  Call (Sample.env_at 2000) (eval_request "d2" "s sn")]))
    as (Hfive & _ & _ & _ & _ & Hfrac & _).
  split; [split|split].
  - destruct Hone as (H & _); [lia|]. rewrite H. reflexivity.
  - destruct Hfive as (_ & _ & Hall & _); [lia|]. apply Hall. simpl. lia.
  - destruct Hfloor as (H & _); [discriminate|]. rewrite H. reflexivity.
  - apply Hfrac; [discriminate | reflexivity].
Defined.

(** ** The history over a session *)

(** X21: The history is append-only. From any state, a session leaves every
    entry the history held, in place, and adds after them one entry per
    evaluate call that carried arguments, whether or not its sink write
    went through; no other tool and no listener changes the history. *)
Theorem history_is_append_only cfg s inputs :
  take (length (patternHistory s)) (patternHistory (exec cfg s inputs)) =
    patternHistory s /\
  drop (length (patternHistory s)) (patternHistory (exec cfg s inputs)) =
    appended inputs /\
  length (patternHistory (exec cfg s inputs)) =
    length (patternHistory s) + length (omap eval_call inputs).
Proof.
  rewrite exec_history. split; [apply take_app_length|].
  split; [apply drop_app_length|].
  rewrite length_app. unfold appended. rewrite length_map. reflexivity.
Qed.

(** ** Start-up *)

(** X22: A server that has started, in either mode and whatever happened to the
    log or the interpreter meanwhile, has the nine channels d1..d9 in this
    order, each empty, inactive and with timestamp 0, and an empty history;
    it answers a state query with "No active patterns." and a history
    query, whatever its limit, with "No pattern history yet.". *)
Theorem fresh_server_is_silent cfg default_log env0 s0 env limit :
  run cfg env0 (constructor cfg default_log) = (Ok tt, s0) ->
  channels s0 =
    map (fun id => (id, mkChannelState id "" 0 false)) valid_channels /\
  patternHistory s0 = [] /\
  getState env s0 = (Ok "No active patterns.", s0) /\
  getHistory env limit s0 = (Ok "No pattern history yet.", s0).
Proof.
  intros Hboot. destruct (booted_store _ _ _ _ Hboot) as [Hc Hh].
  split; [rewrite Hc; reflexivity|]. split; [exact Hh|]. split.
  - unfold getState, getActive. rewrite Hc. reflexivity.
  - unfold getHistory, recent, Array_slice. rewrite Hh. cbn [length Z.of_nat].
    rewrite drop_nil. reflexivity.
Qed.

Lemma fresh_server_is_silent_witness :
  getHistory Sample.env_ok (Some 0%Z) Sample.ghci_boot =
    (Ok "No pattern history yet.", Sample.ghci_boot).
Proof.
  destruct (fresh_server_is_silent Sample.ghci_cfg Sample.log_path Sample.env_ok
              Sample.ghci_boot Sample.env_ok (Some 0%Z) eq_refl)
    as (_ & _ & _ & H).
  exact H.
Defined.

Lemma deliver_survived evs : forall s s',
  deliver evs s = Survived s' ->
  existsb rethrows evs = false /\
  fold_left (fun st ev => on_event ev st) evs s = s'.
Proof.
  induction evs as [|ev evs IH]; intros s s' H; cbn [deliver] in H.
  - injection H as <-. split; reflexivity.
  - cbn [existsb fold_left]. destruct (rethrows ev); [discriminate H|].
    apply IH in H. exact H.
Qed.

Lemma deliver_uncaught evs : forall s s',
  deliver evs s = Uncaught s' ->
  existsb rethrows evs = true /\ ghciStreamAlive s' = false /\
  effects s' = effects s /\ files s' = files s.
Proof.
  induction evs as [|ev evs IH]; intros s s' H; cbn [deliver] in H;
    [discriminate H|].
  cbn [existsb]. destruct ev; cbn [rethrows] in H |- *;
    try (apply IH in H; destruct H as (He & Ha & Hf & Hg);
         split; [exact He|]; split; [exact Ha|]; split; [rewrite Hf|rewrite Hg];
         try reflexivity;
         destruct s as [c h [p|] al r l f e n]; reflexivity).
  injection H as <-. split; [reflexivity|]. split; [reflexivity|].
  split; reflexivity.
Qed.

Lemma deliver_cases evs s :
  (existsb rethrows evs = true /\ exists s', deliver evs s = Uncaught s') \/
  (existsb rethrows evs = false /\
   deliver evs s = Survived (fold_left (fun st ev => on_event ev st) evs s)).
Proof.
  revert s. induction evs as [|ev evs IH]; intros s.
  - right. split; reflexivity.
  - cbn [deliver existsb fold_left]. destruct (rethrows ev).
    + left. split; [reflexivity|]. eexists. reflexivity.
    + apply IH.
Qed.

Lemma write_log_header_ok cfg env s :
  fst (write_log_header cfg env s) = Ok tt.
Proof.
  unfold write_log_header, swallow.
  destruct (fs_writeFile env _ _ s) as [[[]|e] s']; reflexivity.
Qed.

(** X23: Start-up ends in one of three ways. In file mode the server always
    comes to serve. In GHCi mode the promise of run rejects exactly when
    the spawn of the interpreter throws, with the error of the spawn; the
    host process is ended by an uncaught exception exactly when the spawn
    returns and the interpreter reports an error during the wait, as it
    does when the ghci binary is missing: the interpreter was spawned, it
    is marked dead, and no file has been written. Otherwise the server
    comes to serve, from the state in which run returns: a session log that
    cannot be created, an interpreter that exits or never prints its
    marker during the wait, do not stop it. *)
Theorem startup_outcomes cfg default_log env :
  (useGhci cfg = false ->
   exists s0, startup cfg env default_log = Serving s0) /\
  (forall e, startup cfg env default_log = Rejected e <->
     useGhci cfg = true /\ spawn_throws env = Some e) /\
  ((exists s, startup cfg env default_log = Crashed s) <->
     useGhci cfg = true /\ spawn_throws env = None /\
     existsb rethrows (init_events env) = true) /\
  (forall s, startup cfg env default_log = Crashed s ->
     ghciStreamAlive s = false /\ files s = ∅ /\
     effects s =
       [Spawn 0 (or_default (GHCI_PATH env) "ghci")
          ["-ghci-script"; or_default (bootTidalPath cfg) "BootTidal.hs"]]) /\
  (forall s0, startup cfg env default_log = Serving s0 <->
     (useGhci cfg = false \/
      (spawn_throws env = None /\ existsb rethrows (init_events env) = false)) /\
     run cfg env (constructor cfg default_log) = (Ok tt, s0)).
Proof.
  assert (Hrun : forall s,
            write_log_header cfg env s = (Ok tt, snd (write_log_header cfg env s))).
  { intros s. pose proof (write_log_header_ok cfg env s) as H.
    destruct (write_log_header cfg env s) as [o s']. simpl in H. subst o.
    reflexivity. }
  unfold startup, run, bind, startGhci, bind, startGhci_begin, lift, await_init, ret.
  unfold write_log_header in *. unfold constructor.
  cbn [ghciProcess ghciStreamAlive spawned].
  destruct (useGhci cfg).
  - destruct (spawn_throws env) as [e0|].
    + split; [discriminate|]. split.
      { intros e. split; [intros H; injection H as ->; auto|].
        intros [_ H]. injection H as ->. reflexivity. }
      split.
      { split; [intros [s H]; discriminate H | intros (_ & H & _); discriminate H]. }
      split; [intros s H; discriminate H|].
      intros s0. split; [intros H; discriminate H|].
      intros [[H|[H _]] _]; discriminate H.
    + match goal with
      | |- context [deliver ?evs ?s] =>
          destruct (deliver_cases evs s) as [[Hex [s' Hd]]|[Hex Hd]]; rewrite Hd
      end.
      * split; [discriminate|]. split.
        { intros e. split; [discriminate | intros [_ H]; discriminate H]. }
        split.
        { split; [auto|]. intros _. eexists. reflexivity. }
        split.
        { intros s H. injection H as <-.
          apply deliver_uncaught in Hd. destruct Hd as (_ & Ha & He & Hf).
          split; [exact Ha|]. split; [rewrite Hf; reflexivity|].
          rewrite He. reflexivity. }
        intros s0. split; [intros H|].
        { discriminate H. }
        intros [[H|[_ H]] _]; [discriminate H | congruence].
      * rewrite Hrun. split; [discriminate|]. split.
        { intros e. split; [discriminate | intros [_ H]; discriminate H]. }
        split.
        { split; [intros [s H]; discriminate H | intros (_ & _ & H); congruence]. }
        split; [intros s H; discriminate H|].
        intros s0. split.
        { intros H. injection H as <-. split; [right; auto|]. reflexivity. }
        intros [_ H]. injection H as <-. reflexivity.
  - rewrite Hrun. split; [intros _; eexists; reflexivity|]. split.
    { intros e. split; [discriminate | intros [H _]; discriminate H]. }
    split.
    { split; [intros [s H]; discriminate H | intros (H & _); discriminate H]. }
    split; [intros s H; discriminate H|].
    intros s0. split.
    { intros H. injection H as <-. split; [left; reflexivity|]. reflexivity. }
    intros [_ H]. injection H as <-. reflexivity.
Qed.

Lemma startup_outcomes_witness :
  startup Sample.ghci_cfg Sample.env_spawn_fails Sample.log_path =
    Rejected "spawn ENOMEM" /\
  (exists s, startup Sample.ghci_cfg Sample.env_ghci_missing Sample.log_path =
               Crashed s) /\
  (exists s0, startup Sample.ghci_cfg Sample.env_ghci_exits Sample.log_path =
                Serving s0) /\
  (exists s0, startup Sample.file_cfg Sample.env_readonly Sample.log_path =
                Serving s0).
Proof.
  split; [|split; [|split]].
  - apply (startup_outcomes Sample.ghci_cfg Sample.log_path Sample.env_spawn_fails).
    split; reflexivity.
  - apply (startup_outcomes Sample.ghci_cfg Sample.log_path Sample.env_ghci_missing).
    split; [reflexivity|]. split; reflexivity.
  - exists (snd (run Sample.ghci_cfg Sample.env_ghci_exits
                   (constructor Sample.ghci_cfg Sample.log_path))).
    apply (startup_outcomes Sample.ghci_cfg Sample.log_path Sample.env_ghci_exits).
    split; [right; split; reflexivity | reflexivity].
  - apply (startup_outcomes Sample.file_cfg Sample.log_path Sample.env_readonly).
    reflexivity.
Defined.

(** ** The delay before a reconnect of the WebSocket client *)

Lemma pow2_ge_32 (n : nat) : 5 <= n -> (32 <= 2 ^ Z.of_nat n)%Z.
Proof.
  intros H. change 32%Z with (2 ^ 5)%Z. apply Z.pow_le_mono_r; lia.
Qed.

(** X24: The delay before the n-th reconnect attempt doubles from one second,
    1000, 2000, 4000, 8000, 16000 ms, and is 30000 ms from the sixth
    attempt on; so it is never below one second, never above thirty, and
    never shrinks as the attempts go up. *)
Theorem reconnect_delay_backoff (n m : nat) :
  reconnect_delay n =
    (if (n <=? 4)%nat then 1000 * 2 ^ Z.of_nat n else 30000)%Z /\
  (1000 <= reconnect_delay n <= 30000)%Z /\
  (n <= m -> (reconnect_delay n <= reconnect_delay m)%Z).
Proof.
  assert (Hpos : forall k : nat, (1 <= 2 ^ Z.of_nat k)%Z).
  { intros k. change 1%Z with (2 ^ 0)%Z. apply Z.pow_le_mono_r; lia. }
  assert (Hform : forall k : nat, reconnect_delay k =
            (if (k <=? 4)%nat then 1000 * 2 ^ Z.of_nat k else 30000)%Z).
  { intros k. unfold reconnect_delay, maxReconnectDelay.
    destruct (Nat.leb_spec k 4) as [Hle|Hgt].
    - apply Z.min_l.
      assert (2 ^ Z.of_nat k <= 2 ^ 4)%Z by (apply Z.pow_le_mono_r; lia).
      change (2 ^ 4)%Z with 16%Z in *. lia.
    - apply Z.min_r. pose proof (pow2_ge_32 k ltac:(lia)). lia. }
  split; [apply Hform|]. split.
  - unfold reconnect_delay, maxReconnectDelay. specialize (Hpos n). lia.
  - intros Hnm. unfold reconnect_delay, maxReconnectDelay.
    apply Z.min_le_compat_r.
    assert (2 ^ Z.of_nat n <= 2 ^ Z.of_nat m)%Z by (apply Z.pow_le_mono_r; lia).
    lia.
Qed.

Lemma reconnect_delay_backoff_witness :
  (reconnect_delay 3 <= reconnect_delay 7)%Z /\ reconnect_delay 7 = 30000%Z.
Proof.
  destruct (reconnect_delay_backoff 3 7) as (_ & _ & Hmono).
  destruct (reconnect_delay_backoff 7 7) as (Hform & _).
  split; [apply Hmono; lia | exact Hform].
Defined.
